(** * Blueprint markup: viewer state machine, history and markup route

    A shallow embedding of [src/components/BlueprintViewer.tsx] (the React
    component that owns zoom, the element list and the undo/redo history) and
    of [src/app/api/blueprints/[id]/markup/route.ts] (the route that stores
    named markup saves), followed by the properties proved about them.

    Conventions.
    - JavaScript numbers are modelled as exact rationals [Q]; integer-valued
      ones (array indices, timestamps, HTTP status codes) as [Z].  Rounding of
      IEEE doubles is therefore not part of the model.
    - JavaScript strings are lists of UTF-16 code units.
    - Every React handler is a function from the state of the last render
      (plus what the environment supplies: the pointer position, the clock,
      the canvas box) to the next state; the [setX] calls of one handler are
      batched into that one step.
    - The viewer is followed twice: on elements of the type the source
      declares ([Viewer]), where the properties of the state machine are
      proved, and on whatever JSON array the stored text holds ([Raw]), for
      the load effect and the drawing.  On elements the two agree.
    - The store behind the route is its tables as lists.  [create] and
      [update] fail where Prisma throws for a reference or a row that is not
      there; a store that cannot be reached is outside the model. *)

From Stdlib Require Import ZArith QArith Qminmax Lqa Lia List String Ascii Bool DecimalString.
From Stdlib Require Import Sorted Permutation.
Import ListNotations.
Local Open Scope Z_scope.
Set Warnings "-register-all".

(* ================================================================= *)
(** ** The JavaScript operations the sources rely on *)

Module JS.

(** A string is its sequence of UTF-16 code units. *)
Definition jsstring := list N.

(** An ASCII literal of the source as a [jsstring]. *)
Definition lit (s : string) : jsstring := map N_of_ascii (list_ascii_of_string s).

Definition jsstring_eqb (s t : jsstring) : bool :=
  if list_eq_dec N.eq_dec s t then true else false.

(** [WhiteSpace] and [LineTerminator] code points of ECMAScript, the ones
    [String.prototype.trim] strips. *)
Definition isWhiteSpace (c : N) : bool :=
  match c with
  | 9 | 10 | 11 | 12 | 13 | 32 | 160 | 5760
  | 8232 | 8233 | 8239 | 8287 | 12288 | 65279 => true
  | _ => (8192 <=? c) && (c <=? 8202)
  end%N.

Fixpoint dropWhile {A} (f : A -> bool) (l : list A) : list A :=
  match l with
  | [] => []
  | a :: l' => if f a then dropWhile f l' else l
  end.

Definition trimStart (s : jsstring) : jsstring := dropWhile isWhiteSpace s.
Definition trimEnd (s : jsstring) : jsstring := rev (dropWhile isWhiteSpace (rev s)).

(** [s.trim()] *)
Definition trim (s : jsstring) : jsstring := trimEnd (trimStart s).

(** Truthiness of a string: only the empty string is falsy. *)
Definition truthy (s : jsstring) : bool :=
  match s with [] => false | _ => true end.

(** [l[i]]: [None] stands for [undefined]. *)
Definition get {A} (l : list A) (i : Z) : option A :=
  if i <? 0 then None else nth_error l (Z.to_nat i).

(** [l.slice(0, e)]: a negative [e] counts from the end of the array. *)
Definition slice0 {A} (l : list A) (e : Z) : list A :=
  let len := Z.of_nat (List.length l) in
  let k := if e <? 0 then Z.max (len + e) 0 else Z.min e len in
  firstn (Z.to_nat k) l.

(** [l.push(v)], as the array it leaves behind. *)
Definition push {A} (l : list A) (v : A) : list A := l ++ [v].

(** [l.length] *)
Definition length {A} (l : list A) : Z := Z.of_nat (List.length l).

(** The decimal rendering of an integer inside a template string. *)
Definition show (z : Z) : jsstring := lit (NilZero.string_of_int (Z.to_int z)).

(* ----------------------------------------------------------------- *)
(** *** JSON *)

(** A JSON value.  An object keeps its members in insertion order, one per
    key. *)
Inductive json :=
| JNull
| JBool (b : bool)
| JNumber (q : Q)
| JString (s : jsstring)
| JArray (items : list json)
| JObject (fields : list (jsstring * json)).

(** [obj[key]]; [None] stands for [undefined]. *)
Fixpoint property (key : jsstring) (fields : list (jsstring * json)) : option json :=
  match fields with
  | [] => None
  | (k, v) :: rest => if jsstring_eqb k key then Some v else property key rest
  end.

(** Defining a member while parsing: a repeated key keeps its place and
    takes the later value. *)
Fixpoint setProperty (key : jsstring) (v : json) (fields : list (jsstring * json))
  : list (jsstring * json) :=
  match fields with
  | [] => [(key, v)]
  | (k, w) :: rest =>
      if jsstring_eqb k key then (k, v) :: rest else (k, w) :: setProperty key v rest
  end.

(** JSON white space: space, tab, line feed, carriage return. *)
Definition isJsonSpace (c : N) : bool :=
  match c with
  | 32 | 9 | 10 | 13 => true
  | _ => false
  end%N.

Definition skipSpace (s : jsstring) : jsstring := dropWhile isJsonSpace s.

Definition isDigit (c : N) : bool := ((48 <=? c) && (c <=? 57))%N.

Fixpoint takeDigits (s : jsstring) : list N * jsstring :=
  match s with
  | c :: r => if isDigit c then let '(ds, rest) := takeDigits r in (c :: ds, rest) else ([], s)
  | [] => ([], [])
  end.

Definition digitsValue (ds : list N) : Z :=
  fold_left (fun acc d => 10 * acc + Z.of_N (d - 48)) ds 0.

Definition hexValue (c : N) : option N :=
  (if (48 <=? c) && (c <=? 57) then Some (c - 48)
   else if (65 <=? c) && (c <=? 70) then Some (c - 55)
   else if (97 <=? c) && (c <=? 102) then Some (c - 87)
   else None)%N.

Definition hex4 (h1 h2 h3 h4 : N) : option N :=
  match hexValue h1, hexValue h2, hexValue h3, hexValue h4 with
  | Some a, Some b, Some c, Some d => Some (((a * 16 + b) * 16 + c) * 16 + d)%N
  | _, _, _, _ => None
  end.

(** A number: [-]? int frac? exp?, with no leading zero in [int]. *)
Definition parseNumber (s : jsstring) : option (Q * jsstring) :=
  let '(negative, s1) := match s with 45%N :: r => (true, r) | _ => (false, s) end in
  let '(int, s2) := takeDigits s1 in
  match int with
  | [] => None
  | 48%N :: _ :: _ => None
  | _ =>
      let frac := match s2 with
                  | 46%N :: r => match takeDigits r with
                                 | ([], _) => None
                                 | (ds, rest) => Some (ds, rest)
                                 end
                  | _ => Some ([], s2)
                  end in
      match frac with
      | None => None
      | Some (fr, s3) =>
          let exponent :=
            match s3 with
            | (101 | 69)%N :: r =>
                let '(sign, r1) := match r with
                                   | 45%N :: r' => (-1, r')
                                   | 43%N :: r' => (1, r')
                                   | _ => (1, r)
                                   end in
                match takeDigits r1 with
                | ([], _) => None
                | (ds, rest) => Some (sign * digitsValue ds, rest)
                end
            | _ => Some (0, s3)
            end in
          match exponent with
          | None => None
          | Some (ex, s4) =>
              let mantissa := digitsValue (int ++ fr) in
              let scale := ex - Z.of_nat (List.length fr) in
              let magnitude := (inject_Z mantissa * Qpower 10 scale)%Q in
              Some (Qred (if negative then - magnitude else magnitude)%Q, s4)
          end
      end
  end.

(** The characters of a string after its opening quote, up to the closing
    quote. *)
Fixpoint parseChars (s : jsstring) (acc : jsstring) : option (jsstring * jsstring) :=
  match s with
  | [] => None
  | 34%N :: r => Some (rev acc, r)
  | 92%N :: r =>
      match r with
      | 34%N :: r' => parseChars r' (34%N :: acc)
      | 92%N :: r' => parseChars r' (92%N :: acc)
      | 47%N :: r' => parseChars r' (47%N :: acc)
      | 98%N :: r' => parseChars r' (8%N :: acc)
      | 102%N :: r' => parseChars r' (12%N :: acc)
      | 110%N :: r' => parseChars r' (10%N :: acc)
      | 114%N :: r' => parseChars r' (13%N :: acc)
      | 116%N :: r' => parseChars r' (9%N :: acc)
      | 117%N :: h1 :: h2 :: h3 :: h4 :: r' =>
          match hex4 h1 h2 h3 h4 with
          | Some u => parseChars r' (u :: acc)
          | None => None
          end
      | _ => None
      end
  | c :: r => if (c <? 32)%N then None else parseChars r (c :: acc)
  end.

(** A value, and what follows it in the text.  The fuel bounds the number
    of nested calls. *)
Fixpoint parseValue (fuel : nat) (s : jsstring) : option (json * jsstring) :=
  match fuel with
  | O => None
  | S fuel' =>
      match skipSpace s with
      | 110%N :: 117%N :: 108%N :: 108%N :: r => Some (JNull, r)
      | 116%N :: 114%N :: 117%N :: 101%N :: r => Some (JBool true, r)
      | 102%N :: 97%N :: 108%N :: 115%N :: 101%N :: r => Some (JBool false, r)
      | 34%N :: r =>
          match parseChars r [] with
          | Some (str, r') => Some (JString str, r')
          | None => None
          end
      | 91%N :: r =>
          match skipSpace r with
          | 93%N :: r' => Some (JArray [], r')
          | _ => parseElements fuel' r []
          end
      | 123%N :: r =>
          match skipSpace r with
          | 125%N :: r' => Some (JObject [], r')
          | _ => parseMembers fuel' r []
          end
      | c :: r =>
          if (c =? 45)%N || isDigit c then
            match parseNumber (c :: r) with
            | Some (q, r') => Some (JNumber q, r')
            | None => None
            end
          else None
      | [] => None
      end
  end
with parseElements (fuel : nat) (s : jsstring) (acc : list json) : option (json * jsstring) :=
  match fuel with
  | O => None
  | S fuel' =>
      match parseValue fuel' s with
      | Some (v, r) =>
          match skipSpace r with
          | 44%N :: r' => parseElements fuel' r' (v :: acc)
          | 93%N :: r' => Some (JArray (rev (v :: acc)), r')
          | _ => None
          end
      | None => None
      end
  end
with parseMembers (fuel : nat) (s : jsstring) (acc : list (jsstring * json))
  : option (json * jsstring) :=
  match fuel with
  | O => None
  | S fuel' =>
      match skipSpace s with
      | 34%N :: r =>
          match parseChars r [] with
          | Some (key, r1) =>
              match skipSpace r1 with
              | 58%N :: r2 =>
                  match parseValue fuel' r2 with
                  | Some (v, r3) =>
                      match skipSpace r3 with
                      | 44%N :: r4 => parseMembers fuel' r4 (setProperty key v acc)
                      | 125%N :: r4 => Some (JObject (setProperty key v acc), r4)
                      | _ => None
                      end
                  | None => None
                  end
              | _ => None
              end
          | None => None
          end
      | _ => None
      end
  end.

(** [JSON.parse(text)]; [None] stands for the [SyntaxError] it throws.  Every
    call of the parser consumes a character, so the fuel suffices. *)
Definition JSON_parse (text : jsstring) : option json :=
  match parseValue (2 * List.length text + 2) text with
  | Some (v, rest) =>
      match skipSpace rest with
      | [] => Some v
      | _ => None
      end
  | None => None
  end.

(** [Array.isArray(v)] *)
Definition isArray (v : json) : bool :=
  match v with
  | JArray _ => true
  | _ => false
  end.

End JS.

(* ================================================================= *)
(** ** The part of the 2-D canvas the viewer draws with *)

Module Canvas2D.

Record Point := mkPoint { x : Q; y : Q }.

(** Drawing calls, in the order the context receives them.  The radius of
    [Arc] is kept as its square: the source takes a square root, which [Q]
    does not have. *)
Inductive Cmd :=
| ClearRect (x0 y0 w h : Q)
| Save
| Restore
| Scale (sx sy : Q)
| Translate (tx ty : Q)
| DrawImage (x0 y0 w h : Q)
| SetStrokeStyle (c : JS.jsstring)
| SetLineWidth (w : Q)
| SetLineCapRound
| SetLineJoinRound
| BeginPath
| MoveTo (x0 y0 : Q)
| LineTo (x0 y0 : Q)
| Stroke
| StrokeRect (x0 y0 w h : Q)
| ArcFullCircle (cx cy radiusSquared : Q)
| SetFillStyle (c : JS.jsstring)
| SetFontPx (px : Q)
| FillText (t : JS.jsstring) (x0 y0 : Q).

(** The current transformation matrix [[a c e; b d f; 0 0 1]]. *)
Record Matrix := mkMatrix { a : Q; b : Q; c : Q; d : Q; e : Q; f : Q }.

Definition identity : Matrix := mkMatrix 1 0 0 1 0 0.

(** [ctx.scale] and [ctx.translate] multiply the current matrix on the right. *)
Definition scale (sx sy : Q) (m : Matrix) : Matrix :=
  mkMatrix (a m * sx) (b m * sx) (c m * sy) (d m * sy) (e m) (f m).

Definition translate (tx ty : Q) (m : Matrix) : Matrix :=
  mkMatrix (a m) (b m) (c m) (d m)
           (a m * tx + c m * ty + e m) (b m * tx + d m * ty + f m).

(** Where a point given in user coordinates lands on the bitmap. *)
Definition apply (m : Matrix) (p : Point) : Point :=
  mkPoint (a m * x p + c m * y p + e m) (b m * x p + d m * y p + f m).

(** The matrix a run of calls leaves behind (only the transform calls count). *)
Fixpoint transformAfter (cmds : list Cmd) (m : Matrix) : Matrix :=
  match cmds with
  | [] => m
  | Scale sx sy :: k => transformAfter k (scale sx sy m)
  | Translate tx ty :: k => transformAfter k (translate tx ty m)
  | _ :: k => transformAfter k m
  end.

(** The images a run of calls paints, each as the two corners it covers on
    the bitmap: the corners handed to [drawImage] under the matrix that is
    current at that call.  [save] pushes the current matrix on the stack and
    [restore] takes it back (and does nothing on an empty stack). *)
Fixpoint paintedImages (cmds : list Cmd) (m : Matrix) (stack : list Matrix)
  : list (Point * Point) :=
  match cmds with
  | [] => []
  | Save :: k => paintedImages k m (m :: stack)
  | Restore :: k =>
      match stack with
      | saved :: rest => paintedImages k saved rest
      | [] => paintedImages k m []
      end
  | Scale sx sy :: k => paintedImages k (scale sx sy m) stack
  | Translate tx ty :: k => paintedImages k (translate tx ty m) stack
  | DrawImage x0 y0 w h :: k =>
      (apply m (mkPoint x0 y0), apply m (mkPoint (x0 + w) (y0 + h)))
      :: paintedImages k m stack
  | _ :: k => paintedImages k m stack
  end.

(** [strokeRect(x, y, w, h)] strokes the closed path through these four
    corners, whatever the signs of [w] and [h]. *)
Definition rectPath (x0 y0 w h : Q) : list Point :=
  [ mkPoint x0 y0; mkPoint (x0 + w) y0; mkPoint (x0 + w) (y0 + h); mkPoint x0 (y0 + h) ].

Record Box := mkBox { minX : Q; minY : Q; maxX : Q; maxY : Q }.

Definition extend (bx : Box) (p : Point) : Box :=
  mkBox (Qmin (minX bx) (x p)) (Qmin (minY bx) (y p))
        (Qmax (maxX bx) (x p)) (Qmax (maxY bx) (y p)).

(** Bounding box of a path; [None] for the empty path. *)
Definition boundingBox (path : list Point) : option Box :=
  match path with
  | [] => None
  | p :: ps => Some (fold_left extend ps (mkBox (x p) (y p) (x p) (y p)))
  end.

(** The rectangles a run of calls strokes, each as its corner path. *)
Fixpoint strokedRects (cmds : list Cmd) : list (list Point) :=
  match cmds with
  | [] => []
  | StrokeRect x0 y0 w h :: k => rectPath x0 y0 w h :: strokedRects k
  | _ :: k => strokedRects k
  end.

End Canvas2D.

(* ================================================================= *)
(** ** BlueprintViewer.tsx: data and state *)

Module Viewer.
Import JS.
Export Canvas2D.

(** The [type] discriminator of a [DrawingElement]; also the tool selector. *)
Inductive ElementType := Pen | Rectangle | Circle | Text.

(** [interface DrawingElement]: the optional fields are [option]s, [None]
    standing for [undefined]. *)
Module El.
Record DrawingElement := mk {
  id : jsstring;
  type : ElementType;
  points : option (list Point);
  startX : option Q;
  startY : option Q;
  endX : option Q;
  endY : option Q;
  text : option jsstring;
  color : jsstring;
  strokeWidth : Q;
  timestamp : Z
}.
End El.
Definition DrawingElement : Type := El.DrawingElement.

(** The [useState] cells of the component. *)
Record State := mkState {
  isDrawing : bool;
  currentTool : ElementType;
  currentColor : jsstring;
  strokeWidth : Q;
  zoom : Q;
  pan : Point;
  elements : list DrawingElement;
  history : list (list DrawingElement);
  historyIndex : Z;
  showSaveDialog : bool;
  markupName : jsstring;
  currentElement : option DrawingElement;
  textInput : jsstring;
  showTextInput : bool;
  textPosition : Point
}.

(** The arguments of the [useState] calls: the state of the first render. *)
Definition initialState : State := {|
  isDrawing := false;
  currentTool := Pen;
  currentColor := lit "#238636";
  strokeWidth := 3;
  zoom := 1;
  pan := mkPoint 0 0;
  elements := [];
  history := [];
  historyIndex := -1;
  showSaveDialog := false;
  markupName := [];
  currentElement := None;
  textInput := [];
  showTextInput := false;
  textPosition := mkPoint 0 0
|}.

(** The state setters. *)
Definition setIsDrawing (v : bool) (s : State) : State :=
  mkState v (currentTool s) (currentColor s) (strokeWidth s) (zoom s) (pan s)
    (elements s) (history s) (historyIndex s) (showSaveDialog s) (markupName s)
    (currentElement s) (textInput s) (showTextInput s) (textPosition s).

Definition setCurrentTool (v : ElementType) (s : State) : State :=
  mkState (isDrawing s) v (currentColor s) (strokeWidth s) (zoom s) (pan s)
    (elements s) (history s) (historyIndex s) (showSaveDialog s) (markupName s)
    (currentElement s) (textInput s) (showTextInput s) (textPosition s).

Definition setCurrentColor (v : jsstring) (s : State) : State :=
  mkState (isDrawing s) (currentTool s) v (strokeWidth s) (zoom s) (pan s)
    (elements s) (history s) (historyIndex s) (showSaveDialog s) (markupName s)
    (currentElement s) (textInput s) (showTextInput s) (textPosition s).

Definition setStrokeWidth (v : Q) (s : State) : State :=
  mkState (isDrawing s) (currentTool s) (currentColor s) v (zoom s) (pan s)
    (elements s) (history s) (historyIndex s) (showSaveDialog s) (markupName s)
    (currentElement s) (textInput s) (showTextInput s) (textPosition s).

Definition setZoom (v : Q) (s : State) : State :=
  mkState (isDrawing s) (currentTool s) (currentColor s) (strokeWidth s) v (pan s)
    (elements s) (history s) (historyIndex s) (showSaveDialog s) (markupName s)
    (currentElement s) (textInput s) (showTextInput s) (textPosition s).

Definition setPan (v : Point) (s : State) : State :=
  mkState (isDrawing s) (currentTool s) (currentColor s) (strokeWidth s) (zoom s) v
    (elements s) (history s) (historyIndex s) (showSaveDialog s) (markupName s)
    (currentElement s) (textInput s) (showTextInput s) (textPosition s).

Definition setElements (v : list DrawingElement) (s : State) : State :=
  mkState (isDrawing s) (currentTool s) (currentColor s) (strokeWidth s) (zoom s) (pan s)
    v (history s) (historyIndex s) (showSaveDialog s) (markupName s)
    (currentElement s) (textInput s) (showTextInput s) (textPosition s).

Definition setHistory (v : list (list DrawingElement)) (s : State) : State :=
  mkState (isDrawing s) (currentTool s) (currentColor s) (strokeWidth s) (zoom s) (pan s)
    (elements s) v (historyIndex s) (showSaveDialog s) (markupName s)
    (currentElement s) (textInput s) (showTextInput s) (textPosition s).

Definition setHistoryIndex (v : Z) (s : State) : State :=
  mkState (isDrawing s) (currentTool s) (currentColor s) (strokeWidth s) (zoom s) (pan s)
    (elements s) (history s) v (showSaveDialog s) (markupName s)
    (currentElement s) (textInput s) (showTextInput s) (textPosition s).

Definition setShowSaveDialog (v : bool) (s : State) : State :=
  mkState (isDrawing s) (currentTool s) (currentColor s) (strokeWidth s) (zoom s) (pan s)
    (elements s) (history s) (historyIndex s) v (markupName s)
    (currentElement s) (textInput s) (showTextInput s) (textPosition s).

Definition setMarkupName (v : jsstring) (s : State) : State :=
  mkState (isDrawing s) (currentTool s) (currentColor s) (strokeWidth s) (zoom s) (pan s)
    (elements s) (history s) (historyIndex s) (showSaveDialog s) v
    (currentElement s) (textInput s) (showTextInput s) (textPosition s).

Definition setCurrentElement (v : option DrawingElement) (s : State) : State :=
  mkState (isDrawing s) (currentTool s) (currentColor s) (strokeWidth s) (zoom s) (pan s)
    (elements s) (history s) (historyIndex s) (showSaveDialog s) (markupName s)
    v (textInput s) (showTextInput s) (textPosition s).

Definition setTextInput (v : jsstring) (s : State) : State :=
  mkState (isDrawing s) (currentTool s) (currentColor s) (strokeWidth s) (zoom s) (pan s)
    (elements s) (history s) (historyIndex s) (showSaveDialog s) (markupName s)
    (currentElement s) v (showTextInput s) (textPosition s).

Definition setShowTextInput (v : bool) (s : State) : State :=
  mkState (isDrawing s) (currentTool s) (currentColor s) (strokeWidth s) (zoom s) (pan s)
    (elements s) (history s) (historyIndex s) (showSaveDialog s) (markupName s)
    (currentElement s) (textInput s) v (textPosition s).

Definition setTextPosition (v : Point) (s : State) : State :=
  mkState (isDrawing s) (currentTool s) (currentColor s) (strokeWidth s) (zoom s) (pan s)
    (elements s) (history s) (historyIndex s) (showSaveDialog s) (markupName s)
    (currentElement s) (textInput s) (showTextInput s) v.

(** What the environment supplies to a handler: the canvas behind
    [canvasRef] with the origin of its bounding client rectangle and its
    bitmap size ([None] when the ref is still [null]), whether the image
    behind [imageRef] is there, the clock, and the next draw of
    [Math.random()] as the text a template string makes of it. *)
Record CanvasBox := mkCanvasBox { left : Q; top : Q; width : Q; height : Q }.

Record Env := mkEnv {
  canvas : option CanvasBox;
  image : bool;
  now : Z;
  random : jsstring
}.

Record PointerEvent := mkPointerEvent { clientX : Q; clientY : Q }.

(** What [console.error] has been handed. *)
Inductive LogEntry :=
| ErrorParsingInitialMarkups
| ErrorSavingMarkup.

(** The outcome of [JSON.parse(initialMarkups)] as the effect sees it: a
    thrown [SyntaxError], or a value that [Array.isArray] accepts or not.
    The items of an array are taken at the type the source gives them,
    [DrawingElement]; the source does not inspect them, and what it does
    with an array of other items is followed in [Raw] below. *)
Inductive Parsed :=
| NotArray
| IsArray (markups : list DrawingElement).

Inductive ParseResult :=
| Throws
| Value (v : Parsed).

(** [r] is an outcome of [JSON.parse(markup)]: thrown when the text is not
    JSON, an array when the parsed value is one (whatever typed view of its
    items), and not an array otherwise. *)
Definition parsesAs (markup : jsstring) (r : ParseResult) : Prop :=
  match JSON_parse markup, r with
  | None, Throws => True
  | Some v, Value NotArray => isArray v = false
  | Some v, Value (IsArray _) => isArray v = true
  | _, _ => False
  end.

(* ----------------------------------------------------------------- *)
(** *** Loading, drawing and the viewport *)

(** The effect under "Load initial markups": it runs after the first render
    and again whenever the [initialMarkups] prop changes.  Returns the next
    state and what was logged. *)
Definition loadInitialMarkups (r : ParseResult) (s : State) : State * list LogEntry :=
  match r with
  | Value (IsArray markups) =>
      (setHistoryIndex 0 (setHistory [markups] (setElements markups s)), [])
  | Value NotArray => (s, [])
  | Throws => (s, [ErrorParsingInitialMarkups])
  end.

(** [ctx.scale(zoom, zoom); ctx.translate(pan.x, pan.y)] *)
Definition viewportTransform (s : State) : list Cmd :=
  [ Scale (zoom s) (zoom s); Translate (x (pan s)) (y (pan s)) ].

(** The body of [elements.forEach] in [drawElements]. *)
Definition drawElement (element : DrawingElement) : list Cmd :=
  [ SetStrokeStyle (El.color element); SetLineWidth (El.strokeWidth element);
    SetLineCapRound; SetLineJoinRound ] ++
  match El.type element with
  | Pen =>
      match El.points element with
      | Some ((firstPoint :: _ :: _) as pts) =>
          [ BeginPath; MoveTo (x firstPoint) (y firstPoint) ]
          ++ map (fun point => LineTo (x point) (y point)) pts
          ++ [ Stroke ]
      | _ => []
      end
  | Rectangle =>
      match El.startX element, El.startY element, El.endX element, El.endY element with
      | Some sx, Some sy, Some ex, Some ey =>
          let width := (ex - sx)%Q in
          let height := (ey - sy)%Q in
          [ StrokeRect sx sy width height ]
      | _, _, _, _ => []
      end
  | Circle =>
      match El.startX element, El.startY element, El.endX element, El.endY element with
      | Some sx, Some sy, Some ex, Some ey =>
          [ BeginPath;
            ArcFullCircle sx sy ((ex - sx) * (ex - sx) + (ey - sy) * (ey - sy))%Q;
            Stroke ]
      | _, _, _, _ => []
      end
  | Text =>
      match El.text element, El.startX element, El.startY element with
      | Some t, Some sx, Some sy =>
          if truthy t
          then [ SetFillStyle (El.color element);
                 SetFontPx (El.strokeWidth element * 6)%Q;
                 FillText t sx sy ]
          else []
      | _, _, _ => []
      end
  end.

(** [drawElements]: nothing is drawn while the canvas or the image is missing. *)
Definition drawElements (env : Env) (s : State) : list Cmd :=
  match canvas env, image env with
  | Some cv, true =>
      [ ClearRect 0 0 (width cv) (height cv); Save ]
      ++ viewportTransform s
      ++ [ DrawImage 0 0 (width cv / zoom s)%Q (height cv / zoom s)%Q ]
      ++ flat_map drawElement (elements s)
      ++ [ Restore ]
  | _, _ => []
  end.

(** [getCanvasPoint]: pointer (client) coordinates to drawing coordinates. *)
Definition getCanvasPoint (env : Env) (s : State) (cX cY : Q) : Point :=
  match canvas env with
  | None => mkPoint 0 0
  | Some rect =>
      mkPoint ((cX - left rect - x (pan s) * zoom s) / zoom s)%Q
              ((cY - top rect - y (pan s) * zoom s) / zoom s)%Q
  end.

(** Where the renderer puts a drawing point on the screen: the viewport
    transform of [drawElements] takes it to a bitmap position, and the
    bitmap sits at the origin of the canvas box (one bitmap pixel per CSS
    pixel, as [canvas.width = canvas.offsetWidth] arranges). *)
Definition logicalToScreen (rect : CanvasBox) (s : State) (p : Point) : Point :=
  let q := apply (transformAfter (viewportTransform s) identity) p in
  mkPoint (left rect + x q)%Q (top rect + y q)%Q.

(** The zoom buttons and the reset button (inline handlers in the source). *)
Definition zoomOut (s : State) : State := setZoom (Qmax 0.1 (zoom s - 0.1)) s.
Definition zoomIn (s : State) : State := setZoom (Qmin 3 (zoom s + 0.1)) s.
Definition resetView (s : State) : State := setPan (mkPoint 0 0) (setZoom 1 s).

(* ----------------------------------------------------------------- *)
(** *** Pointer and text handlers *)

Definition newId (env : Env) : jsstring := show (now env) ++ lit "-" ++ random env.

Definition handlePointerStart (env : Env) (ev : PointerEvent) (s : State) : State :=
  match currentTool s with
  | Text =>
      let point := getCanvasPoint env s (clientX ev) (clientY ev) in
      setShowTextInput true (setTextPosition point s)
  | tool =>
      let point := getCanvasPoint env s (clientX ev) (clientY ev) in
      let newElement :=
        match tool with
        | Pen =>
            El.mk (newId env) tool (Some [point]) None None None None None
                  (currentColor s) (strokeWidth s) (now env)
        | _ =>
            El.mk (newId env) tool None (Some (x point)) (Some (y point))
                  (Some (x point)) (Some (y point)) None
                  (currentColor s) (strokeWidth s) (now env)
        end in
      setCurrentElement (Some newElement) (setIsDrawing true s)
  end.

(** [{...prev, points: [...(prev.points || []), point]}] *)
Definition appendPoint (point : Point) (prev : DrawingElement) : DrawingElement :=
  El.mk (El.id prev) (El.type prev)
        (Some (match El.points prev with Some ps => ps | None => [] end ++ [point]))
        (El.startX prev) (El.startY prev) (El.endX prev) (El.endY prev)
        (El.text prev) (El.color prev) (El.strokeWidth prev) (El.timestamp prev).

(** [{...prev, endX: point.x, endY: point.y}] *)
Definition moveEnd (point : Point) (prev : DrawingElement) : DrawingElement :=
  El.mk (El.id prev) (El.type prev) (El.points prev)
        (El.startX prev) (El.startY prev) (Some (x point)) (Some (y point))
        (El.text prev) (El.color prev) (El.strokeWidth prev) (El.timestamp prev).

Definition handlePointerMove (env : Env) (ev : PointerEvent) (s : State) : State :=
  match isDrawing s, currentElement s with
  | true, Some _ =>
      let point := getCanvasPoint env s (clientX ev) (clientY ev) in
      match currentTool s with
      | Pen => setCurrentElement (option_map (appendPoint point) (currentElement s)) s
      | _ => setCurrentElement (option_map (moveEnd point) (currentElement s)) s
      end
  | _, _ => s
  end.

Definition handlePointerEnd (s : State) : State :=
  match isDrawing s, currentElement s with
  | true, Some cur =>
      let newElements := elements s ++ [cur] in
      let newHistory := push (slice0 (history s) (historyIndex s + 1)) newElements in
      setCurrentElement None
        (setHistoryIndex (JS.length newHistory - 1)
          (setHistory newHistory
            (setElements newElements
              (setIsDrawing false s))))
  | _, _ => s
  end.

Definition handleAddText (env : Env) (s : State) : State :=
  if negb (truthy (trim (textInput s)))
  then setShowTextInput false s
  else
    let textElement :=
      El.mk (newId env) Text None
            (Some (x (textPosition s))) (Some (y (textPosition s))) None None
            (Some (textInput s)) (currentColor s) (strokeWidth s) (now env) in
    let newElements := elements s ++ [textElement] in
    let newHistory := push (slice0 (history s) (historyIndex s + 1)) newElements in
    setShowTextInput false
      (setTextInput []
        (setHistoryIndex (JS.length newHistory - 1)
          (setHistory newHistory
            (setElements newElements s)))).

(** Escape, and the Cancel button of the text overlay. *)
Definition cancelText (s : State) : State := setTextInput [] (setShowTextInput false s).

(* ----------------------------------------------------------------- *)
(** *** History *)

(** An array is truthy, so [if (previousState)] asks whether the entry is there. *)
Definition undo (s : State) : State :=
  if historyIndex s >? 0 then
    let s1 := setHistoryIndex (historyIndex s - 1) s in
    match get (history s) (historyIndex s - 1) with
    | Some previousState => setElements previousState s1
    | None => s1
    end
  else s.

Definition redo (s : State) : State :=
  if historyIndex s <? JS.length (history s) - 1 then
    let s1 := setHistoryIndex (historyIndex s + 1) s in
    match get (history s) (historyIndex s + 1) with
    | Some nextState => setElements nextState s1
    | None => s1
    end
  else s.

Definition clearAll (s : State) : State :=
  let newHistory := push (slice0 (history s) (historyIndex s + 1)) [] in
  setHistoryIndex (JS.length newHistory - 1) (setHistory newHistory (setElements [] s)).

(* ----------------------------------------------------------------- *)
(** *** Saving *)

(** How the [onSaveMarkup] prop behaves when awaited. *)
Inductive SaveCallback := NoCallback | Resolves | Rejects.

(** [saveMarkup]: the element list handed to [onSaveMarkup] (the source
    serialises it with [JSON.stringify]), if the call is made at all. *)
Definition saveMarkupRequest (cb : SaveCallback) (s : State) : option (list DrawingElement) :=
  match cb with
  | NoCallback => None
  | _ => if negb (truthy (trim (markupName s))) then None else Some (elements s)
  end.

(** What [saveMarkup] does once the awaited call has settled. *)
Definition saveMarkupSettled (cb : SaveCallback) (s : State) : State * list LogEntry :=
  match cb with
  | NoCallback => (s, [])
  | Resolves => (setMarkupName [] (setShowSaveDialog false s), [])
  | Rejects => (s, [ErrorSavingMarkup])
  end.

(* ----------------------------------------------------------------- *)
(** *** The component as a transition system *)

Inductive Event :=
| InitialMarkups (r : ParseResult)
| PointerDown (env : Env) (ev : PointerEvent)
| PointerMove (env : Env) (ev : PointerEvent)
| PointerUp
| TypeText (t : jsstring)
| AddText (env : Env)
| CancelText
| Undo
| Redo
| ClearAll
| SelectTool (tool : ElementType)
| PickColor (c : jsstring)
| PickStrokeWidth (w : Q)
| ZoomOut
| ZoomIn
| ResetView
| SaveDialogOpen (open : bool)
| TypeMarkupName (n : jsstring)
| SaveSettled (cb : SaveCallback).

Definition step (s : State) (ev : Event) : State :=
  match ev with
  | InitialMarkups r => fst (loadInitialMarkups r s)
  | PointerDown env e => handlePointerStart env e s
  | PointerMove env e => handlePointerMove env e s
  | PointerUp => handlePointerEnd s
  | TypeText t => setTextInput t s
  | AddText env => handleAddText env s
  | CancelText => cancelText s
  | Undo => undo s
  | Redo => redo s
  | ClearAll => clearAll s
  | SelectTool tool => setCurrentTool tool s
  | PickColor c => setCurrentColor c s
  | PickStrokeWidth w => setStrokeWidth w s
  | ZoomOut => zoomOut s
  | ZoomIn => zoomIn s
  | ResetView => resetView s
  | SaveDialogOpen o => setShowSaveDialog o s
  | TypeMarkupName n => setMarkupName n s
  | SaveSettled cb => fst (saveMarkupSettled cb s)
  end.

Definition run (evs : list Event) (s : State) : State := fold_left step evs s.

(** The states the component can be in: those some run of events produces
    from the state of the first render. *)
Definition reachable (s : State) : Prop := exists evs, s = run evs initialState.

End Viewer.

(* ================================================================= *)
(** ** BlueprintViewer.tsx on untyped markup

    [JSON.parse] hands the load effect whatever array the stored text
    holds, and the effect stores it without looking at its items.  This
    module follows the load effect and [drawElements] on such items as the
    run time sees them: JSON values, with the conversions JavaScript applies
    to them.  On items that have the shape of [DrawingElement] it agrees
    with the typed embedding above. *)

Module Raw.
Import JS.

(** A value the draw code meets: a JSON value, or [undefined] ([None]). *)
Definition value : Type := option json.

(** A JavaScript number: a rational, or one of the three values that are
    not. *)
Inductive number := Fin (q : Q) | NaN | PosInf | NegInf.

(** The exception a property read of [null] or [undefined], or the call of
    something that is not a function, throws. *)
Inductive Thrown := TypeError.

(* ----------------------------------------------------------------- *)
(** *** Conversions *)

(** Truthiness. *)
Definition truthy (v : value) : bool :=
  match v with
  | None | Some JNull => false
  | Some (JBool b) => b
  | Some (JNumber q) => negb (Qeq_bool q 0)
  | Some (JString s) => JS.truthy s
  | Some (JArray _) | Some (JObject _) => true
  end.

Fixpoint takeWhile (f : N -> bool) (s : jsstring) : list N * jsstring :=
  match s with
  | c :: r => if f c then let '(ds, rest) := takeWhile f r in (c :: ds, rest) else ([], s)
  | [] => ([], [])
  end.

Definition isHexDigit (c : N) : bool :=
  match hexValue c with Some _ => true | None => false end.
Definition isOctalDigit (c : N) : bool := ((48 <=? c) && (c <=? 55))%N.
Definition isBinaryDigit (c : N) : bool := ((c =? 48) || (c =? 49))%N.

Definition radixValue (radix : Z) (ds : list N) : Z :=
  fold_left (fun acc d => radix * acc
                          + Z.of_N (match hexValue d with Some h => h | None => 0 end)) ds 0.

(** [0x], [0o] and [0b] literals, which take no sign. *)
Definition nonDecimalLiteral (s : jsstring) : option Z :=
  match s with
  | 48%N :: (120 | 88)%N :: r =>
      match takeWhile isHexDigit r with
      | ((_ :: _) as ds, []) => Some (radixValue 16 ds)
      | _ => None
      end
  | 48%N :: (111 | 79)%N :: r =>
      match takeWhile isOctalDigit r with
      | ((_ :: _) as ds, []) => Some (radixValue 8 ds)
      | _ => None
      end
  | 48%N :: (98 | 66)%N :: r =>
      match takeWhile isBinaryDigit r with
      | ((_ :: _) as ds, []) => Some (radixValue 2 ds)
      | _ => None
      end
  | _ => None
  end.

(** An unsigned decimal literal that must span the whole text: digits with
    an optional fraction, or a fraction alone, and an optional exponent. *)
Definition unsignedDecimal (s : jsstring) : option Q :=
  let '(int, s1) := takeDigits s in
  let '(frac, s2) := match s1 with
                     | 46%N :: r => takeDigits r
                     | _ => ([], s1)
                     end in
  match int, frac with
  | [], [] => None
  | _, _ =>
      let exponent :=
        match s2 with
        | [] => Some 0
        | (101 | 69)%N :: r =>
            let '(sign, r1) := match r with
                               | 45%N :: r' => (-1, r')
                               | 43%N :: r' => (1, r')
                               | _ => (1, r)
                               end in
            match takeDigits r1 with
            | ((_ :: _) as ds, []) => Some (sign * digitsValue ds)
            | _ => None
            end
        | _ => None
        end in
      match exponent with
      | None => None
      | Some ex =>
          Some (Qred (inject_Z (digitsValue (int ++ frac))
                      * Qpower 10 (ex - Z.of_nat (List.length frac))))%Q
      end
  end.

Definition infinityText : jsstring := lit "Infinity".

(** A decimal literal with its optional sign. *)
Definition signedDecimal (s : jsstring) : number :=
  let '(negative, body) := match s with
                           | 45%N :: r => (true, r)
                           | 43%N :: r => (false, r)
                           | _ => (false, s)
                           end in
  if jsstring_eqb body infinityText then (if negative then NegInf else PosInf)
  else match unsignedDecimal body with
       | Some q => Fin (if negative then Qred (- q) else q)
       | None => NaN
       end.

(** The number a string converts to: white space around it is dropped, the
    empty text is zero, and a text that is no numeric literal is [NaN]. *)
Definition stringToNumber (s : jsstring) : number :=
  match trim s with
  | [] => Fin 0
  | t => match nonDecimalLiteral t with
         | Some z => Fin (inject_Z z)
         | None => signedDecimal t
         end
  end.

(** [ToNumber] of a JSON value.  An array converts through the text of its
    join: no item gives the empty text, one item its own text (the empty
    text for [null]), more items a text with commas, which is no number. *)
Fixpoint jsonToNumber (v : json) : number :=
  match v with
  | JNull => Fin 0
  | JBool b => Fin (if b then 1 else 0)
  | JNumber q => Fin q
  | JString s => stringToNumber s
  | JArray [] => Fin 0
  | JArray [item] =>
      match item with
      | JNull => Fin 0
      | JBool _ => NaN
      | JNumber q => Fin q
      | JString s => stringToNumber s
      | JArray _ => jsonToNumber item
      | JObject _ => NaN
      end
  | JArray (_ :: _ :: _) => NaN
  | JObject _ => NaN
  end.

Definition toNumber (v : value) : number :=
  match v with
  | None => NaN
  | Some j => jsonToNumber j
  end.

Definition hasMember (key : jsstring) (fields : list (jsstring * json)) : bool :=
  match property key fields with
  | Some _ => true
  | None => false
  end.

(** Whether a value converts to a primitive at all.  The conversion of an
    object calls its [toString]; parsed JSON never holds a function, so an
    object with a member of that name has nothing to call and the
    conversion throws.  An array converts each of its items. *)
Fixpoint jsonConvertible (v : json) : bool :=
  match v with
  | JObject fields => negb (hasMember (lit "toString") fields)
  | JArray items => forallb jsonConvertible items
  | _ => true
  end.

Definition convertible (v : value) : bool :=
  match v with
  | None => true
  | Some j => jsonConvertible j
  end.

Definition sub (a b : number) : number :=
  match a, b with
  | Fin x, Fin y => Fin (x - y)
  | NaN, _ | _, NaN => NaN
  | PosInf, PosInf | NegInf, NegInf => NaN
  | PosInf, _ | _, NegInf => PosInf
  | NegInf, _ | _, PosInf => NegInf
  end.

Definition add (a b : number) : number :=
  match a, b with
  | Fin x, Fin y => Fin (x + y)
  | NaN, _ | _, NaN => NaN
  | PosInf, NegInf | NegInf, PosInf => NaN
  | PosInf, _ | _, PosInf => PosInf
  | NegInf, _ | _, NegInf => NegInf
  end.

(** [Math.pow(a, 2)] *)
Definition square (a : number) : number :=
  match a with
  | Fin x => Fin (x * x)
  | NaN => NaN
  | PosInf | NegInf => PosInf
  end.

(** [a * 6] *)
Definition timesSix (a : number) : number :=
  match a with
  | Fin x => Fin (x * 6)
  | other => other
  end.

(** [a > 1] *)
Definition greaterThanOne (a : number) : bool :=
  match a with
  | Fin x => if Qlt_le_dec 1 x then true else false
  | PosInf => true
  | NaN | NegInf => false
  end.

(** The array index a property key names, if it names one: a decimal
    numeral without a leading zero. *)
Definition arrayIndex (key : jsstring) : option nat :=
  match takeDigits key with
  | (48%N :: _ :: _, _) => None
  | ((_ :: _) as ds, []) => Some (Z.to_nat (digitsValue ds))
  | _ => None
  end.

(** [v[key]] and [v.key] for the keys the viewer reads (none of them names a
    method).  Reading a property of [null] or [undefined] throws. *)
Definition get (v : value) (key : jsstring) : Thrown + value :=
  match v with
  | None | Some JNull => inl TypeError
  | Some (JObject fields) => inr (property key fields)
  | Some (JArray items) =>
      if jsstring_eqb key (lit "length")
      then inr (Some (JNumber (inject_Z (JS.length items))))
      else match arrayIndex key with
           | Some i => inr (nth_error items i)
           | None => inr None
           end
  | Some (JString s) =>
      if jsstring_eqb key (lit "length")
      then inr (Some (JNumber (inject_Z (JS.length s))))
      else match arrayIndex key with
           | Some i => inr (option_map (fun c => JString [c]) (nth_error s i))
           | None => inr None
           end
  | Some (JBool _) | Some (JNumber _) => inr None
  end.

(** A read whose object is known not to be [null] or [undefined]. *)
Definition read (v : value) (key : jsstring) : value :=
  match get v key with
  | inr w => w
  | inl _ => None
  end.

(* ----------------------------------------------------------------- *)
(** *** Drawing *)

(** The calls the canvas context receives, with their arguments as the code
    passes them: values where it passes what it read, numbers where it
    passes what it computed. *)
Inductive Call :=
| ClearRect (x0 y0 w h : Q)
| Save
| Restore
| Scale (sx sy : Q)
| Translate (tx ty : Q)
| DrawImage (x0 y0 w h : Q)
| SetStrokeStyle (c : value)
| SetLineWidth (w : value)
| SetLineCapRound
| SetLineJoinRound
| BeginPath
| MoveTo (x0 y0 : value)
| LineTo (x0 y0 : value)
| Stroke
| StrokeRect (x0 y0 : value) (w h : number)
| ArcFullCircle (cx cy : value) (radiusSquared : number)
| SetFillStyle (c : value)
| SetFontPx (px : number)
| FillText (t : value) (x0 y0 : value).

(** What a piece of code did: the calls it made, and whether it returned or
    threw after them. *)
Inductive Outcome :=
| Returned (calls : list Call)
| Threw (calls : list Call) (e : Thrown).

Definition calls (o : Outcome) : list Call :=
  match o with
  | Returned cs => cs
  | Threw cs _ => cs
  end.

Definition threw (o : Outcome) : bool :=
  match o with
  | Returned _ => false
  | Threw _ _ => true
  end.

(** Run [k] after [o], unless [o] threw. *)
Definition andThen (o : Outcome) (k : Outcome) : Outcome :=
  match o with
  | Returned cs =>
      match k with
      | Returned ds => Returned (cs ++ ds)
      | Threw ds e => Threw (cs ++ ds) e
      end
  | Threw cs e => Threw cs e
  end.

(** A call of a canvas method or setter: its arguments are converted to
    numbers or text first, and a value that does not convert makes the call
    throw. *)
Definition invoke (args : list value) (c : Call) : Outcome :=
  if forallb convertible args then Returned [c] else Threw [] TypeError.

(** [points.forEach(point => ctx.lineTo(point.x, point.y))] on an array. *)
Fixpoint lineToEach (points : list json) : Outcome :=
  match points with
  | [] => Returned []
  | point :: rest =>
      match get (Some point) (lit "x") with
      | inl e => Threw [] e
      | inr px =>
          let py := read (Some point) (lit "y") in
          andThen (invoke [px; py] (LineTo px py)) (lineToEach rest)
      end
  end.

Definition isText (v : value) (t : string) : bool :=
  match v with
  | Some (JString s) => jsstring_eqb s (lit t)
  | _ => false
  end.

Definition defined (v : value) : bool :=
  match v with
  | Some _ => true
  | None => false
  end.

(** The pen case. *)
Definition drawPen (el : value) : Outcome :=
  let points := read el (lit "points") in
  if truthy points then
    let length := read points (lit "length") in
    if convertible length then
      if greaterThanOne (toNumber length) then
        let firstPoint := read points (lit "0") in
        if truthy firstPoint then
          let fx := read firstPoint (lit "x") in
          let fy := read firstPoint (lit "y") in
          andThen (Returned [ BeginPath ])
            (andThen (invoke [fx; fy] (MoveTo fx fy))
               (match points with
                | Some (JArray items) => andThen (lineToEach items) (Returned [ Stroke ])
                | _ => Threw [] TypeError
                end))
        else Returned []
      else Returned []
    else Threw [] TypeError
  else Returned [].

(** The rectangle and the circle case: the four coordinates must be there,
    and the subtractions convert them. *)
Definition drawShape (circle : bool) (el : value) : Outcome :=
  let startX := read el (lit "startX") in
  let startY := read el (lit "startY") in
  let endX := read el (lit "endX") in
  let endY := read el (lit "endY") in
  if defined startX && defined startY && defined endX && defined endY then
    if convertible endX && convertible startX && convertible endY && convertible startY then
      let width := sub (toNumber endX) (toNumber startX) in
      let height := sub (toNumber endY) (toNumber startY) in
      if circle
      then Returned [ BeginPath;
                      ArcFullCircle startX startY (add (square width) (square height));
                      Stroke ]
      else Returned [ StrokeRect startX startY width height ]
    else Threw [] TypeError
  else Returned [].

(** The text case. *)
Definition drawText (el : value) (color : value) : Outcome :=
  let text := read el (lit "text") in
  let startX := read el (lit "startX") in
  let startY := read el (lit "startY") in
  if truthy text && defined startX && defined startY then
    andThen
      (Returned [ SetFillStyle color;
                  SetFontPx (timesSix (toNumber (read el (lit "strokeWidth")))) ])
      (invoke [text; startX; startY] (FillText text startX startY))
  else Returned [].

(** The body of [elements.forEach] in [drawElements], on any item. *)
Definition drawElement (element : json) : Outcome :=
  match get (Some element) (lit "color") with
  | inl e => Threw [] e
  | inr color =>
      let el := Some element in
      let strokeWidth := read el (lit "strokeWidth") in
      let type := read el (lit "type") in
      andThen (invoke [color] (SetStrokeStyle color))
        (andThen (invoke [strokeWidth] (SetLineWidth strokeWidth))
           (andThen (Returned [ SetLineCapRound; SetLineJoinRound ])
              (if isText type "pen" then drawPen el
               else if isText type "rectangle" then drawShape false el
               else if isText type "circle" then drawShape true el
               else if isText type "text" then drawText el color
               else Returned [])))
  end.

(** [elements.forEach(...)]: the first item that throws ends the loop. *)
Fixpoint drawEach (elements : list json) : Outcome :=
  match elements with
  | [] => Returned []
  | element :: rest => andThen (drawElement element) (drawEach rest)
  end.

(** [drawElements] for the given viewport: nothing happens while the canvas
    or the image is missing. *)
Definition drawElements (env : Viewer.Env) (zoom : Q) (pan : Canvas2D.Point)
    (elements : list json) : Outcome :=
  match Viewer.canvas env, Viewer.image env with
  | Some cv, true =>
      andThen
        (Returned [ ClearRect 0 0 (Viewer.width cv) (Viewer.height cv); Save;
                    Scale zoom zoom; Translate (Canvas2D.x pan) (Canvas2D.y pan);
                    DrawImage 0 0 (Viewer.width cv / zoom)%Q (Viewer.height cv / zoom)%Q ])
        (andThen (drawEach elements) (Returned [ Restore ]))
  | _, _ => Returned []
  end.

(* ----------------------------------------------------------------- *)
(** *** Loading *)

(** The three state cells the load effect writes, holding items as they
    come. *)
Record Cells := mkCells {
  elements : list json;
  history : list (list json);
  historyIndex : Z
}.

(** The cells after the [useState] calls. *)
Definition initialCells : Cells := mkCells [] [] (-1).

(** The effect under "Load initial markups" on the stored text. *)
Definition loadInitialMarkups (initialMarkups : jsstring) (c : Cells)
  : Cells * list Viewer.LogEntry :=
  match JSON_parse initialMarkups with
  | Some markups =>
      match markups with
      | JArray items => (mkCells items [items] 0, [])
      | _ => (c, [])
      end
  | None => (c, [Viewer.ErrorParsingInitialMarkups])
  end.

(* ----------------------------------------------------------------- *)
(** *** Typed elements as items *)

Definition ofNumber (q : Q) : json := JNumber q.

Definition ofPoint (p : Canvas2D.Point) : json :=
  JObject [ (lit "x", JNumber (Canvas2D.x p)); (lit "y", JNumber (Canvas2D.y p)) ].

Definition typeText (t : Viewer.ElementType) : jsstring :=
  match t with
  | Viewer.Pen => lit "pen"
  | Viewer.Rectangle => lit "rectangle"
  | Viewer.Circle => lit "circle"
  | Viewer.Text => lit "text"
  end.

Definition optionalMember (key : string) (v : option json) : list (jsstring * json) :=
  match v with
  | Some j => [ (lit key, j) ]
  | None => []
  end.

(** The object a [DrawingElement] is at run time: its optional fields are
    members only when they are set. *)
Definition ofElement (e : Viewer.El.DrawingElement) : json :=
  JObject
    ([ (lit "id", JString (Viewer.El.id e)); (lit "type", JString (typeText (Viewer.El.type e))) ]
     ++ optionalMember "points"
          (option_map (fun ps => JArray (map ofPoint ps)) (Viewer.El.points e))
     ++ optionalMember "startX" (option_map ofNumber (Viewer.El.startX e))
     ++ optionalMember "startY" (option_map ofNumber (Viewer.El.startY e))
     ++ optionalMember "endX" (option_map ofNumber (Viewer.El.endX e))
     ++ optionalMember "endY" (option_map ofNumber (Viewer.El.endY e))
     ++ optionalMember "text" (option_map JString (Viewer.El.text e))
     ++ [ (lit "color", JString (Viewer.El.color e));
          (lit "strokeWidth", JNumber (Viewer.El.strokeWidth e));
          (lit "timestamp", JNumber (inject_Z (Viewer.El.timestamp e))) ]).

Definition ofCells (s : Viewer.State) : Cells :=
  mkCells (map ofElement (Viewer.elements s))
          (map (map ofElement) (Viewer.history s))
          (Viewer.historyIndex s).

(** A call of the typed embedding as the call the canvas receives. *)
Definition ofCmd (c : Canvas2D.Cmd) : Call :=
  match c with
  | Canvas2D.ClearRect a b w h => ClearRect a b w h
  | Canvas2D.Save => Save
  | Canvas2D.Restore => Restore
  | Canvas2D.Scale a b => Scale a b
  | Canvas2D.Translate a b => Translate a b
  | Canvas2D.DrawImage a b w h => DrawImage a b w h
  | Canvas2D.SetStrokeStyle s => SetStrokeStyle (Some (JString s))
  | Canvas2D.SetLineWidth w => SetLineWidth (Some (JNumber w))
  | Canvas2D.SetLineCapRound => SetLineCapRound
  | Canvas2D.SetLineJoinRound => SetLineJoinRound
  | Canvas2D.BeginPath => BeginPath
  | Canvas2D.MoveTo a b => MoveTo (Some (JNumber a)) (Some (JNumber b))
  | Canvas2D.LineTo a b => LineTo (Some (JNumber a)) (Some (JNumber b))
  | Canvas2D.Stroke => Stroke
  | Canvas2D.StrokeRect a b w h => StrokeRect (Some (JNumber a)) (Some (JNumber b)) (Fin w) (Fin h)
  | Canvas2D.ArcFullCircle a b r => ArcFullCircle (Some (JNumber a)) (Some (JNumber b)) (Fin r)
  | Canvas2D.SetFillStyle s => SetFillStyle (Some (JString s))
  | Canvas2D.SetFontPx p => SetFontPx (Fin p)
  | Canvas2D.FillText t a b => FillText (Some (JString t)) (Some (JNumber a)) (Some (JNumber b))
  end.

End Raw.

(* ================================================================= *)
(** ** app/api/blueprints/[id]/markup/route.ts *)

Module MarkupRoute.
Import JS.

(** One validation issue: the field it is about and its message. *)
Record Issue := mkIssue { path : string; message : string }.

(** The zod checks the two schemas are built from.  Each returns the issues
    it raises together with the parsed value, if there is one. *)
Definition zStringMin1 (field msg : string) (v : option json) : list Issue * option jsstring :=
  match v with
  | None => ([mkIssue field "Required"], None)
  | Some (JString s) =>
      if JS.length s <? 1 then ([mkIssue field msg], None) else ([], Some s)
  | Some _ => ([mkIssue field "Expected string"], None)
  end.

Definition zStringOptional (field : string) (v : option json)
  : list Issue * option (option jsstring) :=
  match v with
  | None => ([], Some None)
  | Some (JString s) => ([], Some (Some s))
  | Some _ => ([mkIssue field "Expected string"], None)
  end.

Definition zBooleanDefault (field : string) (dflt : bool) (v : option json)
  : list Issue * option bool :=
  match v with
  | None => ([], Some dflt)
  | Some (JBool b) => ([], Some b)
  | Some _ => ([mkIssue field "Expected boolean"], None)
  end.

(** What [MarkupSaveSchema] yields on success. *)
Record MarkupSave := mkMarkupSave {
  name : jsstring;
  markupData : jsstring;
  description : option jsstring;
  isShared : bool;
  userId : option jsstring
}.

(** [MarkupSaveSchema.safeParse]: every field is checked and all issues are
    collected; the value is there only when no issue was raised. *)
Definition MarkupSaveSchema (body : json) : list Issue + MarkupSave :=
  match body with
  | JObject fields =>
      let '(i1, vName) := zStringMin1 "name" "Markup name is required" (property (lit "name") fields) in
      let '(i2, vData) := zStringMin1 "markupData" "Markup data is required" (property (lit "markupData") fields) in
      let '(i3, vDesc) := zStringOptional "description" (property (lit "description") fields) in
      let '(i4, vShared) := zBooleanDefault "isShared" false (property (lit "isShared") fields) in
      let '(i5, vUser) := zStringOptional "userId" (property (lit "userId") fields) in
      match vName, vData, vDesc, vShared, vUser with
      | Some n, Some m, Some d, Some sh, Some u => inr (mkMarkupSave n m d sh u)
      | _, _, _, _, _ => inl (i1 ++ i2 ++ i3 ++ i4 ++ i5)
      end
  | _ => inl [mkIssue EmptyString "Expected object"]
  end.

Definition MarkupUpdateSchema (body : json) : list Issue + jsstring :=
  match body with
  | JObject fields =>
      match zStringMin1 "markupData" "Markup data is required" (property (lit "markupData") fields) with
      | (_, Some m) => inr m
      | (i, None) => inl i
      end
  | _ => inl [mkIssue EmptyString "Expected object"]
  end.

(** Modelled from the spec: [validateRequest] of [lib/api-utils], which is
    not among the sources.  The routes use its result as
    [{success, data}] or [{success, error}]; it reads the JSON body of the
    request ([None]: the body is not JSON) and runs the schema on it. *)
Definition validateRequest {A} (body : option json) (schema : json -> list Issue + A)
  : list Issue + A :=
  match body with
  | None => inl [mkIssue EmptyString "Invalid JSON"]
  | Some b => schema b
  end.

(** The tables the route touches. *)
Record Blueprint := mkBlueprint {
  bpId : jsstring;
  markups : jsstring;
  bpUpdatedAt : Z
}.

Record BlueprintMarkup := mkBlueprintMarkup {
  id : jsstring;
  blueprintId : jsstring;
  saved : MarkupSave;
  createdAt : Z;
  updatedAt : Z
}.

(** The route meets the user table through the [user] relation of a saved
    markup only, so a user is kept as its id. *)
Record Db := mkDb {
  blueprint : list Blueprint;
  blueprintMarkup : list BlueprintMarkup;
  user : list jsstring
}.

(** [prisma.blueprint.findUnique({ where: { id } })] *)
Definition findUnique (db : Db) (i : jsstring) : option Blueprint :=
  find (fun b => jsstring_eqb (bpId b) i) (blueprint db).

(** Does the optional [userId] of a save, when it is given, name a user? *)
Definition userKnown (db : Db) (u : option jsstring) : bool :=
  match u with
  | None => true
  | Some i => existsb (jsstring_eqb i) (user db)
  end.

(** Modelled from the spec: the Prisma schema, which is not among the
    sources.  The spec gives a named save an owner; the route hands the
    optional [userId] of the body to the store and reads the owner back
    through the [user] relation.  The store refuses a row whose [userId]
    names no user, and [create] throws.

    [prisma.blueprintMarkup.create]: the store supplies the id and the two
    timestamps; [None] stands for the exception. *)
Definition create (db : Db) (newId : jsstring) (now : Z) (bp : jsstring) (m : MarkupSave)
  : option (Db * BlueprintMarkup) :=
  if userKnown db (userId m) then
    let row := mkBlueprintMarkup newId bp m now now in
    Some (mkDb (blueprint db) (blueprintMarkup db ++ [row]) (user db), row)
  else None.

(** [prisma.blueprint.update]: fails when no row has the id. *)
Definition update (db : Db) (i : jsstring) (data : jsstring) (now : Z) : option (Db * Blueprint) :=
  match findUnique db i with
  | None => None
  | Some _ =>
      let row := mkBlueprint i data now in
      Some (mkDb (map (fun b => if jsstring_eqb (bpId b) i then row else b) (blueprint db))
                 (blueprintMarkup db) (user db), row)
  end.

Fixpoint insertByUpdatedAtDesc (m : BlueprintMarkup) (l : list BlueprintMarkup) : list BlueprintMarkup :=
  match l with
  | [] => [m]
  | h :: t => if updatedAt h <? updatedAt m then m :: l else h :: insertByUpdatedAtDesc m t
  end.

(** [prisma.blueprintMarkup.findMany({ where: { blueprintId }, orderBy: { updatedAt: "desc" } })] *)
Definition findMany (db : Db) (bp : jsstring) : list BlueprintMarkup :=
  fold_right insertByUpdatedAtDesc []
    (filter (fun m => jsstring_eqb (blueprintId m) bp) (blueprintMarkup db)).

(** Modelled from the spec: the response helpers [apiSuccess] and [apiError]
    of [lib/api-utils], which are not among the sources.  Their callers pass
    the payload and, for an error, the HTTP status, and the page reads
    [success], [data] and [error] from the answer. *)
Inductive Payload :=
| Error (msg : string)
| ValidationError (issues : list Issue)
| SavedMarkup (m : BlueprintMarkup)
| UpdatedBlueprint (b : Blueprint)
| Markups (l : list BlueprintMarkup).

Record Response := mkResponse { status : Z; success : bool; payload : Payload }.

(** Modelled from the spec: [apiError(message, status)]. *)
Definition apiError (p : Payload) (st : Z) : Response := mkResponse st false p.

(** Modelled from the spec: [apiSuccess(data, message)], answered with 200. *)
Definition apiSuccess (p : Payload) : Response := mkResponse 200 true p.

(** [POST /api/blueprints/[id]/markup]: save a new named markup.  An
    exception of the store is caught and answered with 500. *)
Definition POST (db : Db) (newId : jsstring) (now : Z) (bp : jsstring) (body : option json)
  : Db * Response :=
  if negb (truthy bp) then (db, apiError (Error "Blueprint ID is required") 400)
  else
    match findUnique db bp with
    | None => (db, apiError (Error "Blueprint not found") 404)
    | Some _ =>
        match validateRequest body MarkupSaveSchema with
        | inl issues => (db, apiError (ValidationError issues) 400)
        | inr data =>
            match create db newId now bp data with
            | Some (db', markupSave) => (db', apiSuccess (SavedMarkup markupSave))
            | None => (db, apiError (Error "Failed to save markup") 500)
            end
        end
    end.

(** [PUT /api/blueprints/[id]/markup]: overwrite the blueprint's own markup.
    An exception of the store is caught and answered with 500. *)
Definition PUT (db : Db) (now : Z) (bp : jsstring) (body : option json) : Db * Response :=
  if negb (truthy bp) then (db, apiError (Error "Blueprint ID is required") 400)
  else
    match validateRequest body MarkupUpdateSchema with
    | inl issues => (db, apiError (ValidationError issues) 400)
    | inr data =>
        match update db bp data now with
        | Some (db', updatedBlueprint) => (db', apiSuccess (UpdatedBlueprint updatedBlueprint))
        | None => (db, apiError (Error "Failed to update blueprint markup") 500)
        end
    end.

(** [GET /api/blueprints/[id]/markup]: the saved markups of a blueprint. *)
Definition GET (db : Db) (bp : jsstring) : Response :=
  if negb (truthy bp) then apiError (Error "Blueprint ID is required") 400
  else apiSuccess (Markups (findMany db bp)).

End MarkupRoute.

(* ================================================================= *)
(** ** Vocabulary of the properties *)

Import Viewer.

(** The rendered list is the history entry under the index. *)
Definition synced (s : State) : Prop :=
  JS.get (history s) (historyIndex s) = Some (elements s).

Definition indexInRange (s : State) : Prop :=
  0 <= historyIndex s < JS.length (history s).

(** The history invariant of the data model. *)
Definition historyInvariant (s : State) : Prop := indexInRange s /\ synced s.

(** The component before any history entry exists: what [useState] sets up. *)
Definition unseeded (s : State) : Prop :=
  history s = [] /\ historyIndex s = -1 /\ elements s = [].

(** The history is at its last entry: nothing to redo. *)
Definition atTip (s : State) : Prop := historyIndex s = JS.length (history s) - 1.

(** A drag is in progress and [a] is the element under construction. *)
Definition beginDrawing (a : DrawingElement) (s : State) : State :=
  setCurrentElement (Some a) (setIsDrawing true s).

(** The pointer-up that commits the in-progress element [a]. *)
Definition commit (a : DrawingElement) (s : State) : State :=
  handlePointerEnd (beginDrawing a s).

(** Opening a blueprint whose stored markup decodes to [markups]. *)
Definition opened (markups : list DrawingElement) : State :=
  fst (loadInitialMarkups (Value (IsArray markups)) initialState).

(** Does the event commit an element when it arrives in state [s]? *)
Definition commits (s : State) (ev : Event) : bool :=
  match ev with
  | PointerUp =>
      isDrawing s && match currentElement s with Some _ => true | None => false end
  | AddText _ => JS.truthy (JS.trim (textInput s))
  | _ => false
  end.

(** Events that draw or adjust the view, as opposed to the ones that move
    through the history or replace it. *)
Definition drawingEvent (ev : Event) : bool :=
  match ev with
  | InitialMarkups _ | Undo | Redo | ClearAll => false
  | _ => true
  end.

(** How many elements a run of events commits. *)
Fixpoint commitCount (evs : list Event) (s : State) : nat :=
  match evs with
  | [] => O
  | ev :: k => ((if commits s ev then 1 else 0) + commitCount k (step s ev))%nat
  end.

(** Markup that decodes to an array, as opposed to a parse failure or a
    value of another shape. *)
Definition decodesToArray (r : ParseResult) : bool :=
  match r with
  | Value (IsArray _) => true
  | _ => false
  end.

(** Two points, two boxes, two paths that agree as rationals. *)
Definition samePoint (p q : Point) : Prop := (x p == x q /\ y p == y q)%Q.

Definition sameBox (b1 b2 : Box) : Prop :=
  (minX b1 == minX b2 /\ minY b1 == minY b2 /\ maxX b1 == maxX b2 /\ maxY b1 == maxY b2)%Q.

Definition sameBoxOpt (b1 b2 : option Box) : Prop :=
  match b1, b2 with
  | Some u, Some v => sameBox u v
  | None, None => True
  | _, _ => False
  end.

(** A rectangle element with the given corners, and the same element with
    its two corners exchanged. *)
Definition swapCorners (el : DrawingElement) : DrawingElement :=
  El.mk (El.id el) (El.type el) (El.points el)
        (El.endX el) (El.endY el) (El.startX el) (El.startY el)
        (El.text el) (El.color el) (El.strokeWidth el) (El.timestamp el).

Definition rectangleElement (sx sy ex ey : Q) : DrawingElement :=
  El.mk (JS.lit "r") Rectangle None (Some sx) (Some sy) (Some ex) (Some ey) None
        (JS.lit "#238636") 3 0.

(** The bounding boxes of what an element makes the canvas stroke. *)
Definition renderedBoxes (el : DrawingElement) : list (option Box) :=
  map boundingBox (strokedRects (drawElement el)).

(** The zoom range of the viewer. *)
Definition zoomInRange (s : State) : Prop := (0.1 <= zoom s /\ zoom s <= 3)%Q.

(* ----------------------------------------------------------------- *)
(** *** Sample inputs *)

Definition sampleEnv : Env :=
  mkEnv (Some (mkCanvasBox 8 120 800 600)) true 1700000000000 (JS.lit "0.5").

Definition strokeA : DrawingElement :=
  El.mk (JS.lit "a") Pen (Some [mkPoint 1 1; mkPoint 2 3; mkPoint 4 4])
        None None None None None (JS.lit "#238636") 3 1.

Definition rectB : DrawingElement := rectangleElement 50 50 10 10.

Definition circleC : DrawingElement :=
  El.mk (JS.lit "c") Circle None (Some 5%Q) (Some 5%Q) (Some 8%Q) (Some 9%Q) None
        (JS.lit "#ff0000") 2 3.

(** Press, drag twice and release with the pen; then place a text label. *)
Definition sampleSession : list Event :=
  [ PointerDown sampleEnv (mkPointerEvent 18 130);
    PointerMove sampleEnv (mkPointerEvent 28 150);
    PointerMove sampleEnv (mkPointerEvent 48 160);
    PointerUp;
    SelectTool Text;
    PointerDown sampleEnv (mkPointerEvent 108 220);
    TypeText (JS.lit " note ");
    AddText sampleEnv ].

(** The viewer after it was handed markup that is not JSON. *)
Definition afterBadMarkup : State := run [InitialMarkups Throws] initialState.

(** A state with a redo branch: two commits, one undo. *)
Definition midHistory : State :=
  run [InitialMarkups (Value (IsArray [])); PointerDown sampleEnv (mkPointerEvent 18 130);
       PointerUp; PointerDown sampleEnv (mkPointerEvent 30 140); PointerUp; Undo]
      initialState.

Definition sampleDb : MarkupRoute.Db :=
  MarkupRoute.mkDb
    [ MarkupRoute.mkBlueprint (JS.lit "blueprint-1") (JS.lit "[]") 10 ]
    [ MarkupRoute.mkBlueprintMarkup (JS.lit "m1") (JS.lit "blueprint-1")
        (MarkupRoute.mkMarkupSave (JS.lit "first pass") (JS.lit "[]") None false None) 20 20;
      MarkupRoute.mkBlueprintMarkup (JS.lit "m2") (JS.lit "blueprint-1")
        (MarkupRoute.mkMarkupSave (JS.lit "review") (JS.lit "[]") None true None) 30 35 ]
    [ JS.lit "user-1" ].

(** The body [{ name: (empty), markupData: [] }] with the other fields absent. *)
Definition emptyNameBody : JS.json :=
  JS.JObject
    [ (JS.lit "name", JS.JString []);
      (JS.lit "markupData", JS.JString (JS.lit "[]")) ].

(** [s'] is [s] after [push(v)]: the history is cut after the current index,
    [v] is appended, the index is the last position and [v] is rendered. *)
Definition pushed (s s' : State) (v : list DrawingElement) : Prop :=
  history s' = JS.push (JS.slice0 (history s) (historyIndex s + 1)) v /\
  historyIndex s' = JS.length (history s') - 1 /\
  elements s' = v.

(** [s'] shows the same elements, history and index as [s]. *)
Definition sameHistory (s s' : State) : Prop :=
  history s' = history s /\ historyIndex s' = historyIndex s /\ elements s' = elements s.

(* ----------------------------------------------------------------- *)
(** *** Gestures, saving and listing *)

(** A pointer event with what the environment supplied when it arrived. *)
Definition Pointer : Type := (Env * PointerEvent)%type.

(** The drawing point under a pointer event, for the viewport of [s]. *)
Definition logicalPoint (s : State) (p : Pointer) : Point :=
  getCanvasPoint (fst p) s (clientX (snd p)) (clientY (snd p)).

(** A run of pointer moves. *)
Definition moves (ps : list Pointer) (s : State) : State :=
  fold_left (fun st p => handlePointerMove (fst p) (snd p) st) ps s.

(** Press, move along [ps], release. *)
Definition gesture (down : Pointer) (ps : list Pointer) (s : State) : State :=
  handlePointerEnd (moves ps (handlePointerStart (fst down) (snd down) s)).

(** What one pointer move does to the element under construction. *)
Definition dragUpdate (tool : ElementType) (point : Point) (el : DrawingElement)
  : DrawingElement :=
  match tool with
  | Pen => appendPoint point el
  | _ => moveEnd point el
  end.

(** The pen element a press creates in [s], with the path [pts]. *)
Definition penElement (env : Env) (s : State) (pts : list Point) : DrawingElement :=
  El.mk (newId env) Pen (Some pts) None None None None None
        (currentColor s) (strokeWidth s) (now env).

(** The shape a press creates in [s], from corner [p0] to corner [p1]. *)
Definition shapeElement (env : Env) (s : State) (tool : ElementType) (p0 p1 : Point)
  : DrawingElement :=
  El.mk (newId env) tool None (Some (x p0)) (Some (y p0)) (Some (x p1)) (Some (y p1)) None
        (currentColor s) (strokeWidth s) (now env).

(** The four style calls that precede the drawing of every element. *)
Definition styleCalls (color : JS.jsstring) (w : Q) : list Cmd :=
  [ SetStrokeStyle color; SetLineWidth w; SetLineCapRound; SetLineJoinRound ].

(** [saveMarkup] from the click to the settled call of [onSaveMarkup], with
    no other event in between: the next state, what was logged, and the
    element list handed to the callback if the call was made. *)
Definition saveMarkup (cb : SaveCallback) (s : State)
  : State * list LogEntry * option (list DrawingElement) :=
  match saveMarkupRequest cb s with
  | None => (s, [], None)
  | Some data => (fst (saveMarkupSettled cb s), snd (saveMarkupSettled cb s), Some data)
  end.

(** The order of a listing: no entry is older than the one after it. *)
Definition newerFirst (a b : MarkupRoute.BlueprintMarkup) : Prop :=
  MarkupRoute.updatedAt b <= MarkupRoute.updatedAt a.

(** The bodies [MarkupSaveSchema] accepts, and what it makes of them. *)
Definition acceptedSave (fields : list (JS.jsstring * JS.json)) (d : MarkupRoute.MarkupSave)
  : Prop :=
  (JS.property (JS.lit "name") fields = Some (JS.JString (MarkupRoute.name d))
   /\ MarkupRoute.name d <> [])
  /\ (JS.property (JS.lit "markupData") fields = Some (JS.JString (MarkupRoute.markupData d))
      /\ MarkupRoute.markupData d <> [])
  /\ match MarkupRoute.description d with
     | Some t => JS.property (JS.lit "description") fields = Some (JS.JString t)
     | None => JS.property (JS.lit "description") fields = None
     end
  /\ (JS.property (JS.lit "isShared") fields = Some (JS.JBool (MarkupRoute.isShared d))
      \/ (JS.property (JS.lit "isShared") fields = None /\ MarkupRoute.isShared d = false))
  /\ match MarkupRoute.userId d with
     | Some u => JS.property (JS.lit "userId") fields = Some (JS.JString u)
     | None => JS.property (JS.lit "userId") fields = None
     end.

(** A body for the two routes. *)
Definition saveBody (n m : JS.jsstring) : JS.json :=
  JS.JObject [ (JS.lit "name", JS.JString n); (JS.lit "markupData", JS.JString m) ].

Definition updateBody (m : JS.jsstring) : JS.json :=
  JS.JObject [ (JS.lit "markupData", JS.JString m) ].


(** The [disabled] attributes of the undo and the redo button. *)
Definition undoDisabled (s : State) : bool := historyIndex s <=? 0.
Definition redoDisabled (s : State) : bool := historyIndex s >=? JS.length (history s) - 1.

(** Sample pointers for the gestures. *)
Definition pressAt (cx cy : Q) : Pointer := (sampleEnv, mkPointerEvent cx cy).

(* ----------------------------------------------------------------- *)
(** *** Tactics *)

Ltac no_minmax t :=
  lazymatch t with
  | context [Qmin _ _] => fail
  | context [Qmax _ _] => fail
  | _ => idtac
  end.

(* Case analysis on every minimum and maximum of the goal, innermost first. *)
Ltac minmax_cases :=
  repeat match goal with
  | |- context [Qmin ?u ?v] =>
      no_minmax u; no_minmax v;
      let m := fresh "m" in
      destruct (Q.min_spec u v) as [[? ?] | [? ?]];
      set (m := Qmin u v) in *; clearbody m
  | |- context [Qmax ?u ?v] =>
      no_minmax u; no_minmax v;
      let m := fresh "m" in
      destruct (Q.max_spec u v) as [[? ?] | [? ?]];
      set (m := Qmax u v) in *; clearbody m
  end.

(* ================================================================= *)
(** ** Facts about the JavaScript operations *)

Section ArrayFacts.
Context {A : Type}.
Implicit Types (l : list A) (i : Z) (v : A).

Lemma length_nonneg l : 0 <= JS.length l.
Proof. unfold JS.length. lia. Qed.

Lemma length_push l v : JS.length (JS.push l v) = JS.length l + 1.
Proof. unfold JS.length, JS.push. rewrite length_app. simpl. lia. Qed.

Lemma get_negative l i : i < 0 -> JS.get l i = None.
Proof. intros H. unfold JS.get. destruct (Z.ltb_spec i 0); [reflexivity | lia]. Qed.

Lemma get_nth l i : 0 <= i -> JS.get l i = nth_error l (Z.to_nat i).
Proof. intros H. unfold JS.get. destruct (Z.ltb_spec i 0); [lia | reflexivity]. Qed.

Lemma get_some_iff l i : (exists v, JS.get l i = Some v) <-> 0 <= i < JS.length l.
Proof.
  unfold JS.length. split.
  - intros [v Hv]. destruct (Z.ltb_spec i 0) as [Hneg | Hpos].
    + rewrite get_negative in Hv by assumption. discriminate.
    + rewrite get_nth in Hv by assumption.
      assert (Hlt : (Z.to_nat i < List.length l)%nat).
      { apply nth_error_Some. rewrite Hv. discriminate. }
      lia.
  - intros [H0 Hlen]. rewrite get_nth by assumption.
    destruct (nth_error l (Z.to_nat i)) eqn:E; [eauto |].
    apply nth_error_None in E. lia.
Qed.

Lemma get_push_last l v : JS.get (JS.push l v) (JS.length l) = Some v.
Proof.
  rewrite get_nth by apply length_nonneg.
  unfold JS.push, JS.length. rewrite Nat2Z.id.
  rewrite nth_error_app2 by lia. rewrite Nat.sub_diag. reflexivity.
Qed.

Lemma get_push_before l v i : i < JS.length l -> JS.get (JS.push l v) i = JS.get l i.
Proof.
  intros H. destruct (Z.ltb_spec i 0) as [Hneg | Hpos].
  - now rewrite !get_negative.
  - rewrite !get_nth by assumption. unfold JS.push.
    apply nth_error_app1. unfold JS.length in H. lia.
Qed.

(** For an end inside the array, [slice(0, e)] keeps the first [e] entries. *)
Lemma slice0_within l e : 0 <= e <= JS.length l -> JS.slice0 l e = firstn (Z.to_nat e) l.
Proof.
  intros [H0 H1]. unfold JS.slice0, JS.length in *.
  destruct (Z.ltb_spec e 0); [lia |]. now rewrite Z.min_l.
Qed.

Lemma slice0_all l : JS.slice0 l (JS.length l) = l.
Proof.
  rewrite slice0_within by (pose proof (length_nonneg l); lia).
  unfold JS.length. rewrite Nat2Z.id. apply firstn_all.
Qed.

Lemma length_slice0_within l e : 0 <= e <= JS.length l -> JS.length (JS.slice0 l e) = e.
Proof.
  intros H. rewrite slice0_within by assumption.
  unfold JS.length in *. rewrite length_firstn. lia.
Qed.

Lemma get_slice0_before l e i :
  0 <= e <= JS.length l -> i < e -> JS.get (JS.slice0 l e) i = JS.get l i.
Proof.
  intros He Hi. destruct (Z.ltb_spec i 0) as [Hneg | Hpos].
  - now rewrite !get_negative.
  - rewrite !get_nth by assumption. rewrite slice0_within by assumption.
    rewrite nth_error_firstn.
    destruct (Nat.ltb_spec (Z.to_nat i) (Z.to_nat e)); [reflexivity | lia].
Qed.

End ArrayFacts.

(* ================================================================= *)
(** ** The history of the viewer *)

Section HistoryFacts.
Implicit Types (s : State) (ev : Event) (a : DrawingElement).

Lemma sameHistory_refl s : sameHistory s s.
Proof. repeat split. Qed.

(** Whatever the state before, a push leaves the invariant behind, with
    nothing to redo. *)
Lemma pushed_invariant s s' v : pushed s s' v -> historyInvariant s' /\ atTip s'.
Proof.
  intros (Hh & Hi & He). unfold historyInvariant, indexInRange, synced, atTip.
  rewrite Hi, Hh, length_push, He.
  replace (JS.length (JS.slice0 (history s) (historyIndex s + 1)) + 1 - 1)
    with (JS.length (JS.slice0 (history s) (historyIndex s + 1))) by lia.
  pose proof (length_nonneg (JS.slice0 (history s) (historyIndex s + 1))).
  repeat split; try lia. apply get_push_last.
Qed.

Lemma handlePointerEnd_pushed s a :
  isDrawing s = true -> currentElement s = Some a ->
  pushed s (handlePointerEnd s) (elements s ++ [a]).
Proof.
  intros Hd Hc. unfold handlePointerEnd. rewrite Hd, Hc. repeat split.
Qed.

Lemma handlePointerEnd_idle s :
  isDrawing s = false \/ currentElement s = None -> handlePointerEnd s = s.
Proof.
  unfold handlePointerEnd. intros [H | H]; rewrite H; [reflexivity |].
  now destruct (isDrawing s).
Qed.

Lemma handleAddText_blank env s :
  JS.truthy (JS.trim (textInput s)) = false -> handleAddText env s = setShowTextInput false s.
Proof. intros H. unfold handleAddText. now rewrite H. Qed.

Lemma handleAddText_pushed env s :
  JS.truthy (JS.trim (textInput s)) = true ->
  exists label,
    pushed s (handleAddText env s) (elements s ++ [label]) /\
    El.type label = Text /\
    El.text label = Some (textInput s) /\
    El.startX label = Some (x (textPosition s)) /\
    El.startY label = Some (y (textPosition s)).
Proof.
  intros H. unfold handleAddText. rewrite H. simpl.
  eexists. split; [repeat split |]; repeat split.
Qed.

Lemma clearAll_pushed s : pushed s (clearAll s) [].
Proof. repeat split. Qed.

(** Pressing the pointer with a drawing tool starts a drag, and moving it
    keeps the drag going: the states in which a release commits. *)
Lemma handlePointerStart_begins env (e : PointerEvent) s :
  currentTool s <> Text -> exists a, handlePointerStart env e s = beginDrawing a s.
Proof.
  intros Ht. unfold handlePointerStart.
  destruct (currentTool s); try contradiction; eexists; reflexivity.
Qed.

Lemma handlePointerMove_continues env (e : PointerEvent) s a :
  isDrawing s = true -> currentElement s = Some a ->
  exists a', handlePointerMove env e s = setCurrentElement (Some a') s.
Proof.
  intros Hd Hc. unfold handlePointerMove. rewrite Hd, Hc.
  destruct (currentTool s); eexists; reflexivity.
Qed.

(** Undo and redo inside the history. *)
Lemma undo_inside s :
  historyInvariant s -> 0 < historyIndex s ->
  exists previousState,
    JS.get (history s) (historyIndex s - 1) = Some previousState /\
    undo s = setElements previousState (setHistoryIndex (historyIndex s - 1) s).
Proof.
  intros [[H0 Hlen] _] Hpos.
  destruct (proj2 (get_some_iff (history s) (historyIndex s - 1))) as [p Hp]; [lia |].
  exists p. split; [exact Hp |]. unfold undo.
  destruct (Z.gtb_spec (historyIndex s) 0); [| lia]. now rewrite Hp.
Qed.

Lemma undo_at_start s : historyIndex s <= 0 -> undo s = s.
Proof. intros H. unfold undo. destruct (Z.gtb_spec (historyIndex s) 0); [lia | reflexivity]. Qed.

Lemma redo_inside s :
  -1 <= historyIndex s -> historyIndex s < JS.length (history s) - 1 ->
  exists nextState,
    JS.get (history s) (historyIndex s + 1) = Some nextState /\
    redo s = setElements nextState (setHistoryIndex (historyIndex s + 1) s).
Proof.
  intros H0 Hlt.
  destruct (proj2 (get_some_iff (history s) (historyIndex s + 1))) as [p Hp]; [lia |].
  exists p. split; [exact Hp |]. unfold redo.
  destruct (Z.ltb_spec (historyIndex s) (JS.length (history s) - 1)); [| lia]. now rewrite Hp.
Qed.

Lemma redo_at_tip s : JS.length (history s) - 1 <= historyIndex s -> redo s = s.
Proof.
  intros H. unfold redo.
  destruct (Z.ltb_spec (historyIndex s) (JS.length (history s) - 1)); [lia | reflexivity].
Qed.

Lemma undo_history s : history (undo s) = history s.
Proof.
  unfold undo. destruct (historyIndex s >? 0); [| reflexivity].
  now destruct (JS.get (history s) (historyIndex s - 1)).
Qed.

Lemma redo_history s : history (redo s) = history s.
Proof.
  unfold redo. destruct (historyIndex s <? JS.length (history s) - 1); [| reflexivity].
  now destruct (JS.get (history s) (historyIndex s + 1)).
Qed.

Lemma undo_invariant s : historyInvariant s -> historyInvariant (undo s).
Proof.
  intros Hinv. destruct (Z.lt_ge_cases 0 (historyIndex s)) as [Hpos | Hle].
  - destruct (undo_inside s Hinv Hpos) as (p & Hp & ->).
    destruct Hinv as [[H0 Hlen] _].
    unfold historyInvariant, indexInRange, synced. simpl. split; [lia | exact Hp].
  - now rewrite undo_at_start.
Qed.

Lemma redo_invariant s : historyInvariant s -> historyInvariant (redo s).
Proof.
  intros Hinv.
  destruct (Z.lt_ge_cases (historyIndex s) (JS.length (history s) - 1)) as [Hlt | Hge].
  - destruct Hinv as [[H0 Hlen] Hs].
    destruct (redo_inside s) as (p & Hp & ->); [lia | lia |].
    unfold historyInvariant, indexInRange, synced. simpl. split; [lia | exact Hp].
  - now rewrite redo_at_tip.
Qed.

(** What one event does to the history: nothing, a push, an undo, a redo,
    or a fresh single-entry history from loaded markup. *)
Lemma step_effect s ev :
  sameHistory s (step s ev)
  \/ (exists v, pushed s (step s ev) v)
  \/ step s ev = undo s
  \/ step s ev = redo s
  \/ (exists m, step s ev = setHistoryIndex 0 (setHistory [m] (setElements m s))).
Proof.
  destruct ev as [r | env e | env e | | t | env | | | | | tool | c | w | | | | o | n | cb];
    cbn [step];
    try (left; repeat split; fail);
    try (right; right; left; reflexivity);
    try (right; right; right; left; reflexivity).
  - destruct r as [| [| m]]; cbn [loadInitialMarkups fst].
    + left; apply sameHistory_refl.
    + left; apply sameHistory_refl.
    + right; right; right; right. now exists m.
  - left. unfold handlePointerStart. destruct (currentTool s); repeat split.
  - left. unfold handlePointerMove.
    destruct (isDrawing s), (currentElement s), (currentTool s); repeat split.
  - destruct (isDrawing s) eqn:Hd; [destruct (currentElement s) as [a |] eqn:Hc |].
    + right; left. exists (elements s ++ [a]). now apply handlePointerEnd_pushed.
    + left. rewrite handlePointerEnd_idle by now right. apply sameHistory_refl.
    + left. rewrite handlePointerEnd_idle by now left. apply sameHistory_refl.
  - destruct (JS.truthy (JS.trim (textInput s))) eqn:Ht.
    + right; left. destruct (handleAddText_pushed env s Ht) as (label & Hp & _). eauto.
    + left. rewrite handleAddText_blank by assumption. repeat split.
  - right; left. exists []. apply clearAll_pushed.
  - left. destruct cb; repeat split.
Qed.

Lemma sameHistory_invariant s s' : sameHistory s s' -> historyInvariant s -> historyInvariant s'.
Proof.
  intros (Hh & Hi & He) [Hr Hs]. unfold historyInvariant, indexInRange, synced in *.
  rewrite Hh, Hi, He. now split.
Qed.

Lemma sameHistory_unseeded s s' : sameHistory s s' -> unseeded s -> unseeded s'.
Proof.
  intros (Hh & Hi & He) (H1 & H2 & H3). unfold unseeded. rewrite Hh, Hi, He. now repeat split.
Qed.

Lemma loaded_invariant m s :
  historyInvariant (setHistoryIndex 0 (setHistory [m] (setElements m s))).
Proof. unfold historyInvariant, indexInRange, synced. simpl. split; [unfold JS.length; simpl; lia | reflexivity]. Qed.

(** Once the history has an entry, every event keeps the invariant. *)
Lemma step_invariant s ev : historyInvariant s -> historyInvariant (step s ev).
Proof.
  intros Hinv.
  destruct (step_effect s ev) as [H | [[v H] | [H | [H | [m H]]]]].
  - eapply sameHistory_invariant; eauto.
  - apply (pushed_invariant _ _ _ H).
  - rewrite H. now apply undo_invariant.
  - rewrite H. now apply redo_invariant.
  - rewrite H. apply loaded_invariant.
Qed.

(** Before that, an event either leaves the component unseeded or creates
    the first entry. *)
Lemma step_unseeded s ev : unseeded s -> unseeded (step s ev) \/ historyInvariant (step s ev).
Proof.
  intros Hu.
  destruct (step_effect s ev) as [H | [[v H] | [H | [H | [m H]]]]].
  - left. eapply sameHistory_unseeded; eauto.
  - right. apply (pushed_invariant _ _ _ H).
  - left. rewrite H. destruct Hu as (H1 & H2 & H3). rewrite undo_at_start by lia. now repeat split.
  - left. rewrite H. destruct Hu as (H1 & H2 & H3).
    rewrite redo_at_tip by (rewrite H1, H2; simpl; lia). now repeat split.
  - right. rewrite H. apply loaded_invariant.
Qed.

Lemma run_invariant evs s : historyInvariant s -> historyInvariant (run evs s).
Proof.
  revert s. induction evs as [| ev k IH]; intros s H; simpl; [exact H |].
  apply IH. now apply step_invariant.
Qed.

Lemma run_viewer_invariant evs s :
  unseeded s \/ historyInvariant s -> unseeded (run evs s) \/ historyInvariant (run evs s).
Proof.
  revert s. induction evs as [| ev k IH]; intros s H; simpl; [exact H |].
  apply IH. destruct H as [H | H].
  - now apply step_unseeded.
  - right. now apply step_invariant.
Qed.

Lemma initialState_unseeded : unseeded initialState.
Proof. repeat split. Qed.

Lemma reachable_viewer_invariant s : reachable s -> unseeded s \/ historyInvariant s.
Proof.
  intros [evs ->]. apply run_viewer_invariant. left. apply initialState_unseeded.
Qed.

End HistoryFacts.

(* ================================================================= *)
(** ** Commits, undo and redo *)

Section Commits.
Implicit Types (s : State) (ev : Event) (a : DrawingElement).

(** A drawing event either leaves the history alone or commits one element. *)
Lemma drawing_step_cases s ev :
  drawingEvent ev = true ->
  (commits s ev = false /\ sameHistory s (step s ev))
  \/ (commits s ev = true /\ exists a, pushed s (step s ev) (elements s ++ [a])).
Proof.
  destruct ev as [r | env e | env e | | t | env | | | | | tool | c | w | | | | o | n | cb];
    cbn [drawingEvent step commits]; intros Hd; try discriminate;
    try (left; split; [reflexivity | repeat split]; fail).
  - left. split; [reflexivity |].
    unfold handlePointerStart. destruct (currentTool s); repeat split.
  - left. split; [reflexivity |]. unfold handlePointerMove.
    destruct (isDrawing s), (currentElement s), (currentTool s); repeat split.
  - destruct (isDrawing s) eqn:Hi; [destruct (currentElement s) as [a |] eqn:Hc |]; simpl.
    + right. split; [reflexivity |]. exists a. now apply handlePointerEnd_pushed.
    + left. split; [reflexivity |].
      rewrite handlePointerEnd_idle by now right. apply sameHistory_refl.
    + left. split; [reflexivity |].
      rewrite handlePointerEnd_idle by now left. apply sameHistory_refl.
  - destruct (JS.truthy (JS.trim (textInput s))) eqn:Ht.
    + right. split; [reflexivity |].
      destruct (handleAddText_pushed env s Ht) as (label & Hp & _). eauto.
    + left. split; [reflexivity |].
      rewrite handleAddText_blank by assumption. repeat split.
  - left. split; [reflexivity |]. destruct cb; repeat split.
Qed.

(** With nothing to redo, a push only appends. *)
Lemma pushed_at_tip s s' v :
  historyInvariant s -> atTip s -> pushed s s' v ->
  history s' = history s ++ [v] /\ historyIndex s' = historyIndex s + 1.
Proof.
  intros [[H0 Hlen] _] Htip (Hh & Hi & _). unfold atTip in Htip.
  replace (historyIndex s + 1) with (JS.length (history s)) in Hh by lia.
  rewrite slice0_all in Hh. split; [exact Hh |].
  rewrite Hi, Hh, length_push. lia.
Qed.

(** A run of drawing events from a state with nothing to redo: the index
    advances by the number of commits, the entries up to the starting index
    stay, and each commit adds one element. *)
Lemma drawing_run evs : forall s,
  forallb drawingEvent evs = true -> historyInvariant s -> atTip s ->
  historyInvariant (run evs s) /\ atTip (run evs s) /\
  historyIndex (run evs s) = historyIndex s + Z.of_nat (commitCount evs s) /\
  (forall j, j <= historyIndex s -> JS.get (history (run evs s)) j = JS.get (history s) j) /\
  List.length (elements (run evs s)) = (List.length (elements s) + commitCount evs s)%nat.
Proof.
  induction evs as [| ev k IH]; intros s Hall Hinv Htip.
  - simpl. repeat split; try apply Hinv; try exact Htip; lia.
  - simpl in Hall. apply andb_prop in Hall as [Hev Hk].
    cbn [run fold_left commitCount]. fold (run k (step s ev)).
    destruct (drawing_step_cases s ev Hev) as [[Hc Hsame] | [Hc [a Hp]]]; rewrite Hc.
    + assert (Hinv' : historyInvariant (step s ev)) by (eapply sameHistory_invariant; eauto).
      destruct Hsame as (Hh & Hi & He).
      assert (Htip' : atTip (step s ev)) by (unfold atTip in *; now rewrite Hh, Hi).
      destruct (IH _ Hk Hinv' Htip') as (I1 & I2 & I3 & I4 & I5).
      repeat split; try apply I1; try exact I2.
      * rewrite I3, Hi. lia.
      * intros j Hj. rewrite I4 by (rewrite Hi; exact Hj). now rewrite Hh.
      * rewrite I5, He. lia.
    + destruct (pushed_invariant _ _ _ Hp) as [Hinv' Htip'].
      destruct (pushed_at_tip _ _ _ Hinv Htip Hp) as [Hh Hi].
      destruct (IH _ Hk Hinv' Htip') as (I1 & I2 & I3 & I4 & I5).
      repeat split; try apply I1; try exact I2.
      * rewrite I3, Hi. lia.
      * intros j Hj. rewrite I4 by lia. rewrite Hh.
        apply (get_push_before (history s) (elements s ++ [a]) j).
        destruct Hinv as [[_ Hlen] _]. lia.
      * rewrite I5. destruct Hp as (_ & _ & ->). rewrite length_app. simpl. lia.
Qed.

(** [k] undos from an index of at least [k]. *)
Lemma undo_iter k : forall s,
  historyInvariant s -> Z.of_nat k <= historyIndex s ->
  historyInvariant (Nat.iter k undo s) /\
  history (Nat.iter k undo s) = history s /\
  historyIndex (Nat.iter k undo s) = historyIndex s - Z.of_nat k.
Proof.
  induction k as [| k IH]; intros s Hinv Hk.
  - simpl. repeat split; try apply Hinv; lia.
  - destruct (IH s Hinv ltac:(lia)) as (I1 & I2 & I3).
    cbn [Nat.iter nat_rect]. fold (Nat.iter k undo s).
    destruct (undo_inside _ I1 ltac:(lia)) as (p & Hp & Hu).
    split; [now apply undo_invariant |].
    rewrite Hu. simpl. split; [exact I2 | lia].
Qed.

End Commits.

(** C1. From the single-entry history a freshly opened blueprint has, let any
    run of drawing events be processed (pointer presses, moves and releases,
    text entry and confirmation, tool and view changes) and let N be the
    number of elements it commits.  Then the rendered list has grown by N
    elements, N undos bring the rendered list back to the snapshot shown
    before the first commit, and after any run of events at all (commits,
    undos and redos among them) the rendered list is the history entry under
    the index. *)
Theorem undo_n_commits_restores_start (s0 : State) (evs : list Event) :
  history s0 = [elements s0] ->
  historyIndex s0 = 0 ->
  forallb drawingEvent evs = true ->
  List.length (elements (run evs s0)) = (List.length (elements s0) + commitCount evs s0)%nat
  /\ elements (Nat.iter (commitCount evs s0) undo (run evs s0)) = elements s0
  /\ (forall evs', synced (run evs' s0) /\ indexInRange (run evs' s0)).
Proof.
  intros Hh Hi Hall.
  assert (Hinv : historyInvariant s0).
  { unfold historyInvariant, indexInRange, synced. rewrite Hh, Hi. split; [| reflexivity].
    unfold JS.length. simpl. lia. }
  assert (Htip : atTip s0) by (unfold atTip; rewrite Hh, Hi; reflexivity).
  destruct (drawing_run evs s0 Hall Hinv Htip) as (I1 & I2 & I3 & I4 & I5).
  split; [exact I5 |]. split.
  - destruct (undo_iter (commitCount evs s0) (run evs s0) I1 ltac:(lia)) as ((_ & Hs) & Hhist & Hidx).
    unfold synced in Hs. rewrite Hhist, Hidx, I3, Hi in Hs.
    replace (0 + Z.of_nat (commitCount evs s0) - Z.of_nat (commitCount evs s0)) with 0 in Hs by lia.
    rewrite I4 in Hs by lia. rewrite Hh in Hs. simpl in Hs. now inversion Hs.
  - intros evs'. destruct (run_invariant evs' s0 Hinv) as [Hr Hs]. now split.
Qed.

Lemma undo_n_commits_restores_start_witness :
  List.length (elements (run sampleSession (opened []))) = 2%nat
  /\ elements (Nat.iter 2 undo (run sampleSession (opened []))) = []
  /\ (forall evs', synced (run evs' (opened [])) /\ indexInRange (run evs' (opened []))).
Proof.
  exact (undo_n_commits_restores_start (opened []) sampleSession eq_refl eq_refl eq_refl).
Defined.

(** A push from an index inside the history (or from -1) keeps the entries
    up to the index and leaves exactly one entry after them. *)
Lemma pushed_keeps_prefix (s s' : State) (v : list DrawingElement) :
  -1 <= historyIndex s < JS.length (history s) ->
  pushed s s' v ->
  JS.length (history s') = historyIndex s + 2
  /\ JS.get (history s') (historyIndex s + 1) = Some v
  /\ (forall j, j <= historyIndex s -> JS.get (history s') j = JS.get (history s) j).
Proof.
  intros Hr (Hh & _ & _). rewrite Hh, length_push.
  rewrite length_slice0_within by lia. split; [lia |]. split.
  - rewrite <- (length_slice0_within (history s) (historyIndex s + 1)) at 2 by lia.
    apply get_push_last.
  - intros j Hj. rewrite get_push_before by (rewrite length_slice0_within; lia).
    apply get_slice0_before; lia.
Qed.

(** An event that commits pushes the rendered list extended by one element. *)
Lemma commit_pushes (s : State) (ev : Event) :
  commits s ev = true -> exists a, pushed s (step s ev) (elements s ++ [a]).
Proof.
  intros Hc.
  destruct ev as [r | env e | env e | | t | env | | | | | tool | c | w | | | | o | n | cb];
    cbn [commits] in Hc; try discriminate; cbn [step].
  - destruct (isDrawing s) eqn:Hd; [| discriminate].
    destruct (currentElement s) as [a |] eqn:He; [| discriminate].
    exists a. now apply handlePointerEnd_pushed.
  - destruct (handleAddText_pushed env s Hc) as (label & Hp & _). eauto.
Qed.

(** C2. A commit truncates the redo branch: when an event commits an element
    (a pointer release ending a drag, or the confirmation of a non-blank
    text), the history becomes its entries up to the current index followed
    by the new snapshot, the index is the last position, and the new
    snapshot is what is rendered; from an index inside the history this
    keeps the entries up to the index and leaves one entry after them.  In
    particular, on a blueprint opened with empty markup, commit A, commit B,
    undo (now showing A) and commit C leave exactly the history
    [empty, A, AC], where redo changes nothing. *)
Theorem commit_truncates_redo_branch :
  (forall s ev, commits s ev = true ->
     exists a, pushed s (step s ev) (elements s ++ [a]))
  /\ (forall s s' v,
        -1 <= historyIndex s < JS.length (history s) -> pushed s s' v ->
        JS.length (history s') = historyIndex s + 2
        /\ JS.get (history s') (historyIndex s + 1) = Some v
        /\ (forall j, j <= historyIndex s -> JS.get (history s') j = JS.get (history s) j))
  /\ (forall a b c,
        let atA := undo (commit b (commit a (opened []))) in
        let s := commit c atA in
        elements atA = [a] /\ historyIndex atA = 1
        /\ history s = [ []; [a]; [a; c] ]
        /\ historyIndex s = 2
        /\ elements s = [a; c]
        /\ redo s = s).
Proof.
  split; [exact commit_pushes |].
  split; [exact pushed_keeps_prefix |].
  intros a b c. vm_compute. repeat split.
Qed.

Lemma commit_truncates_redo_branch_witness :
  (exists a, pushed (setTextInput (JS.lit "beam") midHistory)
               (step (setTextInput (JS.lit "beam") midHistory) (AddText sampleEnv))
               (elements (setTextInput (JS.lit "beam") midHistory) ++ [a]))
  /\ history (commit circleC (undo (commit rectB (commit strokeA (opened [])))))
     = [ []; [strokeA]; [strokeA; circleC] ].
Proof.
  split.
  - exact (proj1 commit_truncates_redo_branch
             (setTextInput (JS.lit "beam") midHistory) (AddText sampleEnv) eq_refl).
  - exact (proj1 (proj2 (proj2 (proj2 (proj2 commit_truncates_redo_branch)
                                  strokeA rectB circleC)))).
Defined.

(** C3, as the claim states it, fails: after markup that is not JSON was
    handed to a fresh viewer, the history is empty and the index is -1. *)
Lemma index_in_range_fails_after_bad_markup :
  parsesAs (JS.lit "not json") Throws
  /\ reachable afterBadMarkup
  /\ history afterBadMarkup = []
  /\ historyIndex afterBadMarkup = -1
  /\ ~ historyInvariant afterBadMarkup.
Proof.
  split; [vm_compute; exact I |].
  split; [now exists [InitialMarkups Throws] |].
  split; [reflexivity |]. split; [reflexivity |].
  intros [[H _] _]. vm_compute in H. now apply H.
Qed.

(** C3, amended.  In every reachable state of the viewer either no history
    entry exists yet (empty history, index -1, no committed element: the
    state the component starts in and stays in until markup is loaded or
    something is committed), or the index lies inside the history and the
    rendered list is the entry under it.  Every event keeps each reachable
    state within these two forms, every event keeps the second form once it
    holds, and a successful load, a commit, a text commit and a clear
    establish the second form from any state. *)
Theorem history_invariant_once_seeded :
  (forall s, reachable s -> unseeded s \/ historyInvariant s)
  /\ (forall s ev, unseeded s -> unseeded (step s ev) \/ historyInvariant (step s ev))
  /\ (forall s ev, historyInvariant s -> historyInvariant (step s ev))
  /\ (forall s markups,
        historyInvariant (step s (InitialMarkups (Value (IsArray markups)))))
  /\ (forall s ev, commits s ev = true -> historyInvariant (step s ev))
  /\ (forall s, historyInvariant (clearAll s)).
Proof.
  split; [exact reachable_viewer_invariant |].
  split; [exact step_unseeded |].
  split; [exact step_invariant |].
  split; [intros s m; apply loaded_invariant |].
  split.
  - intros s ev Hc. destruct (commit_pushes s ev Hc) as [a Hp].
    apply (pushed_invariant _ _ _ Hp).
  - intros s. apply (pushed_invariant _ _ _ (clearAll_pushed s)).
Qed.

Lemma history_invariant_once_seeded_witness :
  (unseeded midHistory \/ historyInvariant midHistory)
  /\ (unseeded (step initialState Undo) \/ historyInvariant (step initialState Undo))
  /\ historyInvariant (step midHistory Redo).
Proof.
  split; [| split].
  - apply (proj1 history_invariant_once_seeded).
    exists [InitialMarkups (Value (IsArray [])); PointerDown sampleEnv (mkPointerEvent 18 130);
            PointerUp; PointerDown sampleEnv (mkPointerEvent 30 140); PointerUp; Undo].
    reflexivity.
  - apply (proj1 (proj2 history_invariant_once_seeded)). repeat split.
  - apply (proj1 (proj2 (proj2 history_invariant_once_seeded))).
    split; [| reflexivity]. unfold indexInRange. vm_compute. split; [discriminate | reflexivity].
Defined.

(** C7. In every reachable state, undo and redo leave the history as it is
    and change nothing but the index and the rendered list.  When the index
    is positive, undo decrements it and renders the entry under the new
    index; otherwise undo changes nothing at all.  When the index is below
    the last position, redo increments it and renders the entry under the
    new index; otherwise redo changes nothing at all. *)
Theorem undo_redo_only_move_index (s : State) :
  reachable s ->
  (history (undo s) = history s /\ history (redo s) = history s)
  /\ undo s = setElements (elements (undo s)) (setHistoryIndex (historyIndex (undo s)) s)
  /\ redo s = setElements (elements (redo s)) (setHistoryIndex (historyIndex (redo s)) s)
  /\ (0 < historyIndex s ->
        historyIndex (undo s) = historyIndex s - 1
        /\ JS.get (history s) (historyIndex s - 1) = Some (elements (undo s)))
  /\ (historyIndex s <= 0 -> undo s = s)
  /\ (historyIndex s < JS.length (history s) - 1 ->
        historyIndex (redo s) = historyIndex s + 1
        /\ JS.get (history s) (historyIndex s + 1) = Some (elements (redo s)))
  /\ (JS.length (history s) - 1 <= historyIndex s -> redo s = s).
Proof.
  intros Hr. apply reachable_viewer_invariant in Hr.
  assert (Hlow : -1 <= historyIndex s).
  { destruct Hr as [(_ & -> & _) | [[H _] _]]; lia. }
  assert (Hundo : 0 < historyIndex s -> historyInvariant s).
  { intros Hpos. destruct Hr as [(_ & Hi & _) | H]; [lia | exact H]. }
  split; [split; [apply undo_history | apply redo_history] |].
  split; [| split; [| split; [| split; [| split]]]].
  - destruct (Z.lt_ge_cases 0 (historyIndex s)) as [Hpos | Hle].
    + destruct (undo_inside s (Hundo Hpos) Hpos) as (p & _ & ->). now destruct s.
    + rewrite undo_at_start by assumption. now destruct s.
  - destruct (Z.lt_ge_cases (historyIndex s) (JS.length (history s) - 1)) as [Hlt | Hge].
    + destruct (redo_inside s Hlow Hlt) as (p & _ & ->). now destruct s.
    + rewrite redo_at_tip by assumption. now destruct s.
  - intros Hpos. destruct (undo_inside s (Hundo Hpos) Hpos) as (p & Hp & ->). now split.
  - apply undo_at_start.
  - intros Hlt. destruct (redo_inside s Hlow Hlt) as (p & Hp & ->). now split.
  - apply redo_at_tip.
Qed.

Lemma undo_redo_only_move_index_witness :
  reachable midHistory
  /\ history (undo midHistory) = history midHistory
  /\ historyIndex (undo midHistory) = historyIndex midHistory - 1
  /\ JS.get (history midHistory) (historyIndex midHistory - 1) = Some (elements (undo midHistory))
  /\ historyIndex (redo midHistory) = historyIndex midHistory + 1
  /\ JS.get (history midHistory) (historyIndex midHistory + 1) = Some (elements (redo midHistory)).
Proof.
  assert (Hmid : reachable midHistory).
  { exists [InitialMarkups (Value (IsArray [])); PointerDown sampleEnv (mkPointerEvent 18 130);
            PointerUp; PointerDown sampleEnv (mkPointerEvent 30 140); PointerUp; Undo].
    reflexivity. }
  destruct (undo_redo_only_move_index midHistory Hmid) as ((H1 & _) & _ & _ & H4 & _ & H6 & _).
  assert (Hpos : 0 < historyIndex midHistory) by (vm_compute; reflexivity).
  assert (Hlt : historyIndex midHistory < JS.length (history midHistory) - 1)
    by (vm_compute; reflexivity).
  destruct (H4 Hpos) as [H4a H4b]. destruct (H6 Hlt) as [H6a H6b].
  split; [exact Hmid |]. split; [exact H1 |]. split; [exact H4a |].
  split; [exact H4b |]. split; [exact H6a | exact H6b].
Defined.

(* ================================================================= *)
(** ** Text labels *)

Section Trim.
Implicit Types (t : JS.jsstring).

Lemma dropWhile_all {A} (f : A -> bool) (l : list A) :
  forallb f l = true -> JS.dropWhile f l = [].
Proof.
  induction l as [| c l IH]; simpl; [reflexivity |].
  destruct (f c); [exact IH | discriminate].
Qed.

Lemma dropWhile_keeps {A} (f : A -> bool) (l : list A) :
  forallb f l = false -> JS.dropWhile f l <> [].
Proof.
  induction l as [| c l IH]; simpl; [discriminate |].
  destruct (f c); [exact IH | discriminate].
Qed.

Lemma dropWhile_head {A} (f : A -> bool) (l : list A) c k :
  JS.dropWhile f l = c :: k -> f c = false.
Proof.
  induction l as [| d l IH]; simpl; [discriminate |].
  destruct (f d) eqn:E; [exact IH |]. intros H. now inversion H; subst.
Qed.

(** [t.trim()] is empty exactly when every code unit of [t] is white space. *)
Lemma trim_truthy t : JS.truthy (JS.trim t) = negb (forallb JS.isWhiteSpace t).
Proof.
  unfold JS.trim, JS.trimEnd, JS.trimStart.
  destruct (forallb JS.isWhiteSpace t) eqn:E.
  - now rewrite (dropWhile_all _ _ E).
  - destruct (JS.dropWhile JS.isWhiteSpace t) as [| c k] eqn:D.
    + now apply dropWhile_keeps in E.
    + apply dropWhile_head in D.
      assert (Hne : JS.dropWhile JS.isWhiteSpace (rev (c :: k)) <> []).
      { apply dropWhile_keeps. simpl. rewrite forallb_app. simpl. rewrite D.
        now rewrite andb_false_r. }
      destruct (JS.dropWhile JS.isWhiteSpace (rev (c :: k))) as [| d r]; [contradiction |].
      simpl. now destruct (rev r).
Qed.

End Trim.

(** C10. Confirming a text input that is empty or all white space creates no
    label and pushes nothing: only the overlay is closed, and elements,
    history and index stay as they are.  Confirming a text with at least one
    other character appends one text element that carries the text as typed
    (untrimmed) at the captured position, cuts the history after the current
    index, appends the new list as its one new snapshot and sets the index
    to the last position. *)
Theorem text_confirm_blank_or_commit (env : Env) (s : State) :
  (forallb JS.isWhiteSpace (textInput s) = true ->
     handleAddText env s = setShowTextInput false s
     /\ elements (handleAddText env s) = elements s
     /\ history (handleAddText env s) = history s
     /\ historyIndex (handleAddText env s) = historyIndex s)
  /\ (forallb JS.isWhiteSpace (textInput s) = false ->
        exists label,
          El.type label = Text
          /\ El.text label = Some (textInput s)
          /\ El.startX label = Some (x (textPosition s))
          /\ El.startY label = Some (y (textPosition s))
          /\ elements (handleAddText env s) = elements s ++ [label]
          /\ history (handleAddText env s)
             = JS.slice0 (history s) (historyIndex s + 1) ++ [elements s ++ [label]]
          /\ historyIndex (handleAddText env s) = JS.length (history (handleAddText env s)) - 1).
Proof.
  split; intros Hws.
  - rewrite handleAddText_blank by (rewrite trim_truthy, Hws; reflexivity).
    repeat split.
  - destruct (handleAddText_pushed env s) as (label & (Hh & Hi & He) & Ht & Htx & Hx & Hy).
    { rewrite trim_truthy, Hws. reflexivity. }
    exists label. repeat split; assumption.
Qed.

Lemma text_confirm_blank_or_commit_witness :
  (history (handleAddText sampleEnv (setTextInput [32; 9; 160]%N midHistory)) = history midHistory)
  /\ (exists label,
        El.text label = Some (JS.lit " beam ")
        /\ elements (handleAddText sampleEnv (setTextInput (JS.lit " beam ") midHistory))
           = elements midHistory ++ [label]).
Proof.
  split.
  - exact (proj1 (proj2 (proj2
      (proj1 (text_confirm_blank_or_commit sampleEnv (setTextInput [32; 9; 160]%N midHistory))
             eq_refl)))).
  - destruct (proj2 (text_confirm_blank_or_commit sampleEnv
                       (setTextInput (JS.lit " beam ") midHistory)) eq_refl)
      as (label & _ & Ht & _ & _ & He & _).
    exists label. split; [exact Ht | exact He].
Defined.

(* ================================================================= *)
(** ** Typed and untyped drawing *)

Section RawAgreement.
Import JS.

Lemma lineToEach_points (ps : list Point) :
  Raw.lineToEach (map Raw.ofPoint ps)
  = Raw.Returned (map (fun q => Raw.LineTo (Some (JNumber (x q))) (Some (JNumber (y q)))) ps).
Proof.
  induction ps as [| q ps IH]; [reflexivity |].
  cbn [map Raw.lineToEach]. rewrite IH. reflexivity.
Qed.

Lemma length_two_or_more {A} (a b : A) (l : list A) :
  Raw.greaterThanOne (Raw.Fin (inject_Z (JS.length (a :: b :: l)))) = true.
Proof.
  unfold Raw.greaterThanOne.
  destruct (Qlt_le_dec 1 (inject_Z (JS.length (a :: b :: l)))) as [H | H]; [reflexivity |].
  exfalso. unfold Qle in H. unfold JS.length in H. cbn [inject_Z Qnum Qden List.length] in H.
  lia.
Qed.

Lemma read_length (items : list json) :
  Raw.read (Some (JArray items)) (lit "length") = Some (JNumber (inject_Z (JS.length items))).
Proof. reflexivity. Qed.

Lemma read_first (items : list json) :
  Raw.read (Some (JArray items)) (lit "0") = nth_error items 0.
Proof. vm_compute. reflexivity. Qed.

(** The pen case on an element whose [points] are points. *)
Lemma drawPen_agrees (el : Raw.value) (pts : list Point) :
  Raw.read el (lit "points") = Some (JArray (map Raw.ofPoint pts)) ->
  Raw.drawPen el
  = Raw.Returned
      (map Raw.ofCmd
         match pts with
         | firstPoint :: _ :: _ =>
             [ BeginPath; MoveTo (x firstPoint) (y firstPoint) ]
             ++ map (fun point => LineTo (x point) (y point)) pts
             ++ [ Stroke ]
         | _ => []
         end).
Proof.
  intros Hp. unfold Raw.drawPen. rewrite Hp. cbn [Raw.truthy].
  rewrite read_length. cbn [Raw.convertible Raw.jsonConvertible Raw.toNumber Raw.jsonToNumber].
  destruct pts as [| p0 [| p1 ps]]; [reflexivity | reflexivity |].
  cbn [map]. rewrite length_two_or_more, read_first. cbn [nth_error].
  change (Raw.ofPoint p0 :: Raw.ofPoint p1 :: map Raw.ofPoint ps)
    with (map Raw.ofPoint (p0 :: p1 :: ps)).
  rewrite lineToEach_points.
  destruct p0 as [x0 y0].
  change (Raw.truthy (Some (Raw.ofPoint {| x := x0; y := y0 |}))) with true. cbv iota.
  change (Raw.read (Some (Raw.ofPoint {| x := x0; y := y0 |})) (lit "x")) with (Some (JNumber x0)).
  change (Raw.read (Some (Raw.ofPoint {| x := x0; y := y0 |})) (lit "y")) with (Some (JNumber y0)).
  cbn [Raw.invoke forallb Raw.convertible Raw.jsonConvertible andb Raw.andThen app map Raw.ofCmd x y].
  rewrite map_app, map_map. reflexivity.
Qed.

(** On an item that is a [DrawingElement], the untyped drawing makes the
    calls of the typed one and returns. *)
Lemma drawElement_agrees (e : DrawingElement) :
  Raw.drawElement (Raw.ofElement e) = Raw.Returned (map Raw.ofCmd (drawElement e)).
Proof.
  destruct e as [i t pts sx sy ex ey txt col w ts].
  destruct t.
  - destruct pts as [l |];
      [| destruct sx, sy, ex, ey, txt; vm_compute; reflexivity].
    unfold Raw.drawElement.
    destruct sx, sy, ex, ey, txt.
    all: match goal with
         | |- context [Raw.get (Some ?el) _] =>
             assert (Hc : Raw.get (Some el) (lit "color") = inr (Some (JString col)))
               by (vm_compute; reflexivity);
             assert (Hw : Raw.read (Some el) (lit "strokeWidth") = Some (JNumber w))
               by (vm_compute; reflexivity);
             assert (Ht : Raw.read (Some el) (lit "type") = Some (JString (lit "pen")))
               by (vm_compute; reflexivity);
             assert (Hp : Raw.read (Some el) (lit "points") = Some (JArray (map Raw.ofPoint l)))
               by (vm_compute; reflexivity);
             rewrite Hc, Hw, Ht, (drawPen_agrees _ _ Hp)
         end.
    all: change (Raw.isText (Some (JString (lit "pen"))) "pen") with true; cbv iota.
    all: destruct l as [| p0 [| p1 ps]]; reflexivity.
  - destruct pts, sx, sy, ex, ey, txt; vm_compute; reflexivity.
  - destruct pts, sx, sy, ex, ey, txt; vm_compute; reflexivity.
  - destruct pts, sx, sy, ex, ey, txt as [[| c k] |]; vm_compute; reflexivity.
Qed.

Lemma drawEach_agrees (els : list DrawingElement) :
  Raw.drawEach (map Raw.ofElement els) = Raw.Returned (map Raw.ofCmd (flat_map drawElement els)).
Proof.
  induction els as [| e els IH]; [reflexivity |].
  cbn [map Raw.drawEach flat_map]. rewrite drawElement_agrees, IH, map_app. reflexivity.
Qed.

(** Drawing a state whose elements are elements: the calls of the typed
    [drawElements], and no exception. *)
Lemma drawElements_agrees (env : Env) (s : State) :
  Raw.drawElements env (zoom s) (pan s) (map Raw.ofElement (elements s))
  = Raw.Returned (map Raw.ofCmd (drawElements env s)).
Proof.
  unfold Raw.drawElements, drawElements.
  destruct (canvas env) as [cv |]; [| reflexivity].
  destruct (image env); [| reflexivity].
  rewrite drawEach_agrees. cbn [Raw.andThen app map Raw.ofCmd viewportTransform].
  rewrite map_app. reflexivity.
Qed.



(** The untyped load on text that is not JSON, or is JSON but no array. *)
Lemma load_skips (markup : jsstring) (c : Raw.Cells) :
  (forall items, JSON_parse markup <> Some (JArray items)) ->
  Raw.loadInitialMarkups markup c
  = (c, match JSON_parse markup with
        | Some _ => []
        | None => [ErrorParsingInitialMarkups]
        end).
Proof.
  intros Hn. unfold Raw.loadInitialMarkups.
  destruct (JSON_parse markup) as [[| b | q | t | items | fields] |]; try reflexivity.
  now contradiction (Hn items).
Qed.

End RawAgreement.

(* ================================================================= *)
(** ** Loading stored markup *)

(** C5, as the claim states it, fails in three ways.  Stored markup that is
    JSON but not an array (the text [{}]) is skipped without anything being
    logged.  When the markup handed to a viewer that already shows elements
    cannot be parsed (the text [not json]), those elements stay on screen.
    And markup that is an array of something else than elements (the text
    [[null]]) is not refused at all: nothing is logged, the array becomes
    the element list, and the drawing that follows throws on its first item
    after clearing the canvas and painting the image. *)
Lemma malformed_markup_silent_kept_or_blocking :
  (parsesAs (JS.lit "{}") (Value NotArray)
   /\ decodesToArray (Value NotArray) = false
   /\ snd (loadInitialMarkups (Value NotArray) initialState) = []
   /\ snd (Raw.loadInitialMarkups (JS.lit "{}") Raw.initialCells) = [])
  /\ (parsesAs (JS.lit "not json") Throws
      /\ decodesToArray Throws = false
      /\ reachable (run sampleSession (opened []))
      /\ List.length (elements (fst (loadInitialMarkups Throws (run sampleSession (opened [])))))
         = 2%nat)
  /\ (JS.JSON_parse (JS.lit "[null]") = Some (JS.JArray [JS.JNull])
      /\ Raw.loadInitialMarkups (JS.lit "[null]") Raw.initialCells
         = (Raw.mkCells [JS.JNull] [[JS.JNull]] 0, [])
      /\ Raw.threw (Raw.drawElements sampleEnv 1 (mkPoint 0 0) (Raw.elements Raw.initialCells))
         = false
      /\ Raw.drawElements sampleEnv 1 (mkPoint 0 0)
           (Raw.elements (fst (Raw.loadInitialMarkups (JS.lit "[null]") Raw.initialCells)))
         = Raw.Threw [ Raw.ClearRect 0 0 800 600; Raw.Save; Raw.Scale 1 1; Raw.Translate 0 0;
                       Raw.DrawImage 0 0 800 600 ] Raw.TypeError).
Proof.
  split; [split; [vm_compute; reflexivity | split; [| split]; vm_compute; reflexivity] |].
  split.
  - split; [vm_compute; exact I |].
    split; [reflexivity |]. split; [| reflexivity].
    exists (InitialMarkups (Value (IsArray [])) :: sampleSession). vm_compute. reflexivity.
  - split; [vm_compute; reflexivity |]. split; [vm_compute; reflexivity |].
    split; vm_compute; reflexivity.
Qed.

(** C5, amended.  Loading stored markup that is not JSON (as the text
    [not json]), or is JSON but not an array, never throws and leaves every
    state cell as it was, for elements of any kind: a parse failure is
    logged, a parsed value that is not an array is skipped silently.  So the
    load is never a blocking error: what is drawn after it is drawn as
    before it, and a viewer in which nothing was loaded or committed before
    has an empty element list afterwards and draws without an exception. *)
Theorem malformed_markup_leaves_state (markup : JS.jsstring) (r : ParseResult) (s : State) :
  parsesAs markup r ->
  decodesToArray r = false ->
  fst (loadInitialMarkups r s) = s
  /\ (JS.JSON_parse markup = None ->
        snd (loadInitialMarkups r s) = [ErrorParsingInitialMarkups])
  /\ (forall v, JS.JSON_parse markup = Some v -> snd (loadInitialMarkups r s) = [])
  /\ (unseeded s -> elements (fst (loadInitialMarkups r s)) = [])
  /\ (forall c, Raw.loadInitialMarkups markup c = (c, snd (loadInitialMarkups r s)))
  /\ (forall env,
        Raw.drawElements env (zoom s) (pan s)
          (Raw.elements (fst (Raw.loadInitialMarkups markup (Raw.ofCells s))))
        = Raw.Returned (map Raw.ofCmd (drawElements env s)))
  /\ (forall env z p,
        Raw.elements (fst (Raw.loadInitialMarkups markup Raw.initialCells)) = []
        /\ Raw.threw
             (Raw.drawElements env z p
                (Raw.elements (fst (Raw.loadInitialMarkups markup Raw.initialCells))))
           = false).
Proof.
  unfold parsesAs. intros Hp Hr.
  assert (Hraw : forall c, Raw.loadInitialMarkups markup c = (c, snd (loadInitialMarkups r s))).
  { intros c. rewrite load_skips.
    - destruct r as [| [| m]]; try discriminate;
        destruct (JS.JSON_parse markup); try contradiction; reflexivity.
    - intros items Hi. rewrite Hi in Hp. destruct r as [| [| m]]; try discriminate; try contradiction.
  }
  assert (Htyped : fst (loadInitialMarkups r s) = s).
  { destruct r as [| [| m]]; try discriminate; reflexivity. }
  split; [exact Htyped |]. split; [| split; [| split; [| split; [| split]]]].
  - intros Hn. rewrite Hn in Hp. destruct r as [| [| m]]; try contradiction; reflexivity.
  - intros v Hv. rewrite Hv in Hp. destruct r as [| [| m]]; try contradiction; try discriminate.
    reflexivity.
  - intros (_ & _ & H). now rewrite Htyped.
  - exact Hraw.
  - intros env. rewrite Hraw. cbn [fst Raw.ofCells Raw.elements]. apply drawElements_agrees.
  - intros env z p. rewrite Hraw. cbn [fst Raw.initialCells Raw.elements]. split; [reflexivity |].
    unfold Raw.drawElements. destruct (canvas env); [| reflexivity].
    destruct (image env); reflexivity.
Qed.

Lemma malformed_markup_leaves_state_witness :
  fst (loadInitialMarkups Throws initialState) = initialState
  /\ snd (loadInitialMarkups Throws initialState) = [ErrorParsingInitialMarkups]
  /\ elements (fst (loadInitialMarkups Throws initialState)) = []
  /\ Raw.loadInitialMarkups (JS.lit "not json") Raw.initialCells
     = (Raw.initialCells, [ErrorParsingInitialMarkups])
  /\ Raw.threw
       (Raw.drawElements sampleEnv 1 (mkPoint 0 0)
          (Raw.elements (fst (Raw.loadInitialMarkups (JS.lit "not json") Raw.initialCells))))
     = false.
Proof.
  assert (Hp : parsesAs (JS.lit "not json") Throws) by (vm_compute; exact I).
  destruct (malformed_markup_leaves_state (JS.lit "not json") Throws initialState Hp eq_refl)
    as (H1 & H2 & _ & H4 & H5 & _ & H7).
  split; [exact H1 |]. split; [apply H2; vm_compute; reflexivity |].
  split; [apply H4; split; [reflexivity |]; split; reflexivity |].
  split; [exact (H5 Raw.initialCells) |].
  exact (proj2 (H7 sampleEnv 1%Q (mkPoint 0 0))).
Defined.

(* ================================================================= *)
(** ** The viewport *)

Section Zoom.
Implicit Types (s : State) (ev : Event).
Local Open Scope Q_scope.

Lemma zoomIn_range s : zoomInRange s -> zoomInRange (zoomIn s).
Proof.
  unfold zoomInRange, zoomIn. simpl. intros [Hlo Hhi]. split.
  - apply Q.min_glb; lra.
  - apply Q.le_min_l.
Qed.

Lemma zoomOut_range s : zoomInRange s -> zoomInRange (zoomOut s).
Proof.
  unfold zoomInRange, zoomOut. simpl. intros [Hlo Hhi]. split.
  - apply Q.le_max_l.
  - apply Q.max_lub; lra.
Qed.

Lemma resetView_range s : zoomInRange (resetView s).
Proof. unfold zoomInRange, resetView. simpl. lra. Qed.

(** Only the three view buttons touch the zoom. *)
Lemma step_zoom s ev :
  step s ev = zoomIn s \/ step s ev = zoomOut s \/ step s ev = resetView s
  \/ zoom (step s ev) = zoom s.
Proof.
  destruct ev as [r | env e | env e | | t | env | | | | | tool | c | w | | | | o | n | cb];
    cbn [step]; auto; right; right; right.
  - now destruct r as [| [| m]].
  - unfold handlePointerStart. now destruct (currentTool s).
  - unfold handlePointerMove.
    now destruct (isDrawing s), (currentElement s), (currentTool s).
  - unfold handlePointerEnd. now destruct (isDrawing s), (currentElement s).
  - unfold handleAddText. now destruct (negb (JS.truthy (JS.trim (textInput s)))).
  - unfold undo. destruct (historyIndex s >? 0)%Z; [| reflexivity].
    now destruct (JS.get (history s) (historyIndex s - 1)%Z).
  - unfold redo. destruct (historyIndex s <? JS.length (history s) - 1)%Z; [| reflexivity].
    now destruct (JS.get (history s) (historyIndex s + 1)%Z).
  - now destruct cb.
Qed.

Lemma step_zoom_range s ev : zoomInRange s -> zoomInRange (step s ev).
Proof.
  intros H. destruct (step_zoom s ev) as [-> | [-> | [-> | Hz]]].
  - now apply zoomIn_range.
  - now apply zoomOut_range.
  - apply resetView_range.
  - unfold zoomInRange in *. now rewrite Hz.
Qed.

Lemma run_zoom_range evs : forall s, zoomInRange s -> zoomInRange (run evs s).
Proof.
  induction evs as [| ev k IH]; intros s H; simpl; [exact H |].
  apply IH. now apply step_zoom_range.
Qed.

End Zoom.

(** C8. The zoom never leaves the range from 0.1 to 3: it is in range after
    any run of events from the first render, and the zoom buttons keep it in
    range.  Zoom in adds 0.1 and zoom out subtracts 0.1, each cut off at the
    bound on its side; reset view sets the zoom to 1 and the pan to the
    origin. *)
Theorem zoom_stays_in_range :
  (forall evs, zoomInRange (run evs initialState))
  /\ (forall s, zoomInRange s -> zoomInRange (zoomIn s) /\ zoomInRange (zoomOut s))
  /\ (forall s, (zoom s + 0.1 <= 3 -> zoom (zoomIn s) == zoom s + 0.1)
             /\ (3 <= zoom s + 0.1 -> zoom (zoomIn s) == 3)
             /\ (0.1 <= zoom s - 0.1 -> zoom (zoomOut s) == zoom s - 0.1)
             /\ (zoom s - 0.1 <= 0.1 -> zoom (zoomOut s) == 0.1))%Q
  /\ (forall s, zoom (resetView s) = 1%Q /\ pan (resetView s) = mkPoint 0 0
             /\ sameHistory s (resetView s)).
Proof.
  split.
  - intros evs. apply run_zoom_range. unfold zoomInRange. simpl. lra.
  - split; [intros s H; split; [now apply zoomIn_range | now apply zoomOut_range] |].
    split.
    + intros s. unfold zoomIn, zoomOut. simpl. repeat split; intros H.
      * now apply Q.min_r.
      * now apply Q.min_l.
      * now apply Q.max_r.
      * now apply Q.max_l.
    + intros s. repeat split.
Qed.

Lemma zoom_stays_in_range_witness :
  zoomInRange (zoomIn (run (repeat ZoomIn 25) initialState))
  /\ (zoom (zoomOut (run (repeat ZoomOut 9) initialState)) == 0.1)%Q
  /\ (zoom (zoomIn initialState) == zoom initialState + 0.1)%Q.
Proof.
  pose proof zoom_stays_in_range as (Hreach & Hkeep & Hstep & _).
  split; [| split].
  - exact (proj1 (Hkeep _ (Hreach (repeat ZoomIn 25)))).
  - destruct (Hstep (run (repeat ZoomOut 9) initialState)) as (_ & _ & _ & H).
    apply H. vm_compute. discriminate.
  - destruct (Hstep initialState) as (H & _).
    apply H. vm_compute. discriminate.
Defined.

Section Coordinates.
Implicit Types (s : State) (p : Point) (rect : CanvasBox).
Local Open Scope Q_scope.

(** Drawing an element issues no transform call. *)
Lemma drawElement_transform (el : DrawingElement) (k : list Cmd) (m : Matrix) :
  transformAfter (drawElement el ++ k) m = transformAfter k m.
Proof.
  unfold drawElement. cbn [app transformAfter].
  destruct (El.type el).
  - destruct (El.points el) as [[| p0 [| p1 ps]] |]; try reflexivity.
    cbn [app transformAfter]. generalize (p0 :: p1 :: ps). intros l.
    induction l as [| q l IH]; [reflexivity | exact IH].
  - now destruct (El.startX el), (El.startY el), (El.endX el), (El.endY el).
  - now destruct (El.startX el), (El.startY el), (El.endX el), (El.endY el).
  - destruct (El.text el) as [t |], (El.startX el), (El.startY el); try reflexivity.
    now destruct (JS.truthy t).
Qed.

(** The matrix in force while [drawElements] draws is the viewport
    transform: scale by the zoom, then translate by the pan. *)
Lemma drawElements_transform (env : Env) (s : State) (cv : CanvasBox) :
  canvas env = Some cv -> image env = true ->
  transformAfter (drawElements env s) identity = transformAfter (viewportTransform s) identity.
Proof.
  intros Hc Hi. unfold drawElements. rewrite Hc, Hi.
  cbn [app transformAfter viewportTransform].
  generalize (translate (x (pan s)) (y (pan s)) (scale (zoom s) (zoom s) identity)).
  induction (elements s) as [| el l IH]; intros m; [reflexivity |].
  cbn [flat_map]. rewrite <- app_assoc. rewrite drawElement_transform. apply IH.
Qed.

Lemma logicalToScreen_formula rect s p :
  samePoint (logicalToScreen rect s p)
            (mkPoint (left rect + (zoom s * x p + x (pan s) * zoom s))
                     (top rect + (zoom s * y p + y (pan s) * zoom s))).
Proof. unfold samePoint, logicalToScreen. simpl. split; ring. Qed.

End Coordinates.

(** C4. [getCanvasPoint] (screen to logical) inverts the viewport transform
    of the renderer (scale by the zoom z, then translate by the pan, which
    moves the picture by pan times z): with numbers taken as exact
    rationals, for every zoom between 0.1 and 3, every pan and every point,
    mapping the point to the screen and back returns the point.  The
    logical x is (deviceX - originX - panX z) / z, and likewise for y. *)
Theorem screen_to_logical_inverts_viewport
    (env : Env) (rect : CanvasBox) (s : State) (p : Point) :
  canvas env = Some rect ->
  zoomInRange s ->
  samePoint (getCanvasPoint env s (x (logicalToScreen rect s p)) (y (logicalToScreen rect s p))) p
  /\ samePoint (logicalToScreen rect s p)
               (mkPoint (left rect + (zoom s * x p + x (pan s) * zoom s))
                        (top rect + (zoom s * y p + y (pan s) * zoom s)))%Q
  /\ (forall cX cY,
        getCanvasPoint env s cX cY
        = mkPoint ((cX - left rect - x (pan s) * zoom s) / zoom s)
                  ((cY - top rect - y (pan s) * zoom s) / zoom s))%Q
  /\ (image env = true ->
      transformAfter (drawElements env s) identity
      = transformAfter (viewportTransform s) identity).
Proof.
  intros Hc [Hlo Hhi].
  assert (Hz : ~ (zoom s == 0)%Q) by lra.
  split; [| split; [| split]].
  - unfold samePoint, getCanvasPoint, logicalToScreen. rewrite Hc. simpl.
    split; field; exact Hz.
  - apply logicalToScreen_formula.
  - intros cX cY. unfold getCanvasPoint. now rewrite Hc.
  - intros Hi. now apply (drawElements_transform env s rect).
Qed.

Lemma screen_to_logical_inverts_viewport_witness :
  samePoint
    (getCanvasPoint sampleEnv (setPan (mkPoint 12 (-7)) (setZoom 2.5 initialState))
       (x (logicalToScreen (mkCanvasBox 8 120 800 600)
             (setPan (mkPoint 12 (-7)) (setZoom 2.5 initialState)) (mkPoint 40 30.5)))
       (y (logicalToScreen (mkCanvasBox 8 120 800 600)
             (setPan (mkPoint 12 (-7)) (setZoom 2.5 initialState)) (mkPoint 40 30.5))))
    (mkPoint 40 30.5).
Proof.
  refine (proj1 (screen_to_logical_inverts_viewport sampleEnv (mkCanvasBox 8 120 800 600)
                   (setPan (mkPoint 12 (-7)) (setZoom 2.5 initialState)) (mkPoint 40 30.5)
                   eq_refl _)).
  split; vm_compute; discriminate.
Defined.

(* ================================================================= *)
(** ** Rectangles *)

Section Rectangles.
Local Open Scope Q_scope.

(** The box around [strokeRect(x, y, ex - x, ey - y)] spans the two corners,
    in whichever order they come. *)
Lemma rect_box (sx sy ex ey : Q) :
  sameBoxOpt (boundingBox (rectPath sx sy (ex - sx) (ey - sy)))
             (Some (mkBox (Qmin sx ex) (Qmin sy ey) (Qmax sx ex) (Qmax sy ey))).
Proof.
  unfold rectPath, boundingBox, sameBoxOpt, sameBox, extend. simpl.
  repeat split; minmax_cases; lra.
Qed.

Lemma sameBox_sym (b1 b2 : Box) : sameBox b1 b2 -> sameBox b2 b1.
Proof. unfold sameBox. intros (H1 & H2 & H3 & H4). repeat split; lra. Qed.

Lemma sameBox_trans (b1 b2 b3 : Box) : sameBox b1 b2 -> sameBox b2 b3 -> sameBox b1 b3.
Proof.
  unfold sameBox. intros (H1 & H2 & H3 & H4) (G1 & G2 & G3 & G4). repeat split; lra.
Qed.

Lemma corner_box_swap (sx sy ex ey : Q) :
  sameBox (mkBox (Qmin sx ex) (Qmin sy ey) (Qmax sx ex) (Qmax sy ey))
          (mkBox (Qmin ex sx) (Qmin ey sy) (Qmax ex sx) (Qmax ey sy)).
Proof.
  unfold sameBox. simpl. repeat split;
    [apply Q.min_comm | apply Q.min_comm | apply Q.max_comm | apply Q.max_comm].
Qed.

Lemma rect_box_swap (sx sy ex ey : Q) :
  sameBoxOpt (boundingBox (rectPath sx sy (ex - sx) (ey - sy)))
             (boundingBox (rectPath ex ey (sx - ex) (sy - ey))).
Proof.
  pose proof (rect_box sx sy ex ey) as H1. pose proof (rect_box ex ey sx sy) as H2.
  unfold rectPath, boundingBox in *. cbn [sameBoxOpt] in *.
  eapply sameBox_trans; [exact H1 |].
  eapply sameBox_trans; [apply corner_box_swap |]. now apply sameBox_sym.
Qed.

(** Exchanging the corners turns the stroked path by two corners. *)
Lemma rect_path_swap (sx sy ex ey : Q) :
  Forall2 samePoint
    (rectPath ex ey (sx - ex) (sy - ey))
    (skipn 2 (rectPath sx sy (ex - sx) (ey - sy)) ++ firstn 2 (rectPath sx sy (ex - sx) (ey - sy))).
Proof. unfold rectPath, samePoint. simpl. repeat constructor; simpl; ring. Qed.

End Rectangles.

(** C9. Rectangle rendering does not depend on the direction of the drag.
    The rectangle from (50,50) to (10,10) is stroked with the same bounding
    box as the one from (10,10) to (50,50), namely the box from (10,10) to
    (50,50).  In general, exchanging the start and the end of any rectangle
    element leaves the bounding box of what is stroked unchanged, and the
    stroked path runs through the same four corners. *)
Theorem rectangle_direction_independent :
  Forall2 sameBoxOpt (renderedBoxes (rectangleElement 50 50 10 10))
                     (renderedBoxes (rectangleElement 10 10 50 50))
  /\ Forall2 sameBoxOpt (renderedBoxes (rectangleElement 50 50 10 10))
                        [Some (mkBox 10 10 50 50)]
  /\ (forall el, El.type el = Rectangle ->
        Forall2 sameBoxOpt (renderedBoxes el) (renderedBoxes (swapCorners el)))
  /\ (forall sx sy ex ey,
        strokedRects (drawElement (rectangleElement sx sy ex ey))
          = [rectPath sx sy (ex - sx) (ey - sy)]
        /\ Forall2 samePoint
             (rectPath ex ey (sx - ex) (sy - ey))
             (skipn 2 (rectPath sx sy (ex - sx) (ey - sy))
              ++ firstn 2 (rectPath sx sy (ex - sx) (ey - sy))))%Q.
Proof.
  assert (Hgen : forall el, El.type el = Rectangle ->
            Forall2 sameBoxOpt (renderedBoxes el) (renderedBoxes (swapCorners el))).
  { intros el Ht. unfold renderedBoxes, drawElement, swapCorners. cbn [El.type El.startX El.startY El.endX El.endY El.color El.strokeWidth].
    rewrite Ht. cbn [app strokedRects].
    destruct (El.startX el) as [sx |], (El.startY el) as [sy |],
             (El.endX el) as [ex |], (El.endY el) as [ey |];
      cbn [strokedRects map];
      first [ constructor; [apply rect_box_swap | constructor] | constructor ]. }
  split; [exact (Hgen (rectangleElement 50 50 10 10) eq_refl) |].
  split.
  - constructor; [| constructor]. vm_compute. repeat split.
  - split; [exact Hgen |]. intros sx sy ex ey. split; [reflexivity | apply rect_path_swap].
Qed.

Lemma rectangle_direction_independent_witness :
  Forall2 sameBoxOpt (renderedBoxes (rectangleElement 3 9 (-4) 2))
                     (renderedBoxes (swapCorners (rectangleElement 3 9 (-4) 2))).
Proof.
  exact (proj1 (proj2 (proj2 rectangle_direction_independent))
           (rectangleElement 3 9 (-4) 2) eq_refl).
Defined.

(* ================================================================= *)
(** ** Saving a named markup *)

Section NamedSaves.
Import JS MarkupRoute.

(** A body whose [name] is the empty string does not pass the schema, and
    the issue raised for [name] is the one the schema words. *)
Lemma empty_name_rejected (fields : list (JS.jsstring * json)) :
  property (JS.lit "name") fields = Some (JString []) ->
  exists issues,
    MarkupSaveSchema (JObject fields) = inl issues
    /\ In (mkIssue "name" "Markup name is required") issues.
Proof.
  intros Hn. unfold MarkupSaveSchema. rewrite Hn.
  cbn [zStringMin1 JS.length List.length Z.of_nat Z.ltb Z.compare].
  destruct (zStringMin1 "markupData" "Markup data is required"
              (property (JS.lit "markupData") fields)) as [i2 v2].
  destruct (zStringOptional "description" (property (JS.lit "description") fields)) as [i3 v3].
  destruct (zBooleanDefault "isShared" false (property (JS.lit "isShared") fields)) as [i4 v4].
  destruct (zStringOptional "userId" (property (JS.lit "userId") fields)) as [i5 v5].
  eexists. split; [reflexivity |]. now left.
Qed.

End NamedSaves.

(** C6. Saving a named markup with an empty name fails: the POST route
    answers without success and writes nothing, so the table of named saves
    is the one from before and listing the saves of the blueprint (GET)
    returns the same answer as before.  For a blueprint that exists the
    answer is the validation error with status 400, among whose issues is
    that the markup name is required. *)
Theorem save_named_empty_name_rejected
    (db : MarkupRoute.Db) (newId : JS.jsstring) (now : Z) (bp : JS.jsstring)
    (fields : list (JS.jsstring * JS.json)) :
  JS.property (JS.lit "name") fields = Some (JS.JString []) ->
  let result := MarkupRoute.POST db newId now bp (Some (JS.JObject fields)) in
  fst result = db
  /\ MarkupRoute.success (snd result) = false
  /\ MarkupRoute.findMany (fst result) bp = MarkupRoute.findMany db bp
  /\ MarkupRoute.GET (fst result) bp = MarkupRoute.GET db bp
  /\ (bp <> [] -> MarkupRoute.findUnique db bp <> None ->
        MarkupRoute.status (snd result) = 400
        /\ exists issues,
             MarkupRoute.payload (snd result) = MarkupRoute.ValidationError issues
             /\ In (MarkupRoute.mkIssue "name" "Markup name is required") issues).
Proof.
  intros Hn result.
  destruct (empty_name_rejected fields Hn) as (issues & Hs & Hin).
  assert (Hdb : fst result = db /\ MarkupRoute.success (snd result) = false).
  { unfold result, MarkupRoute.POST. destruct (negb (JS.truthy bp)); [now split |].
    destruct (MarkupRoute.findUnique db bp); [| now split].
    unfold MarkupRoute.validateRequest. rewrite Hs. now split. }
  destruct Hdb as [Hdb Hfail]. rewrite Hdb.
  repeat split; try assumption.
  - unfold result, MarkupRoute.POST. destruct bp as [| c k]; [contradiction |].
    cbn [JS.truthy negb]. destruct (MarkupRoute.findUnique db (c :: k)); [| contradiction].
    unfold MarkupRoute.validateRequest. now rewrite Hs.
  - exists issues. split; [| exact Hin].
    unfold result, MarkupRoute.POST. destruct bp as [| c k]; [contradiction |].
    cbn [JS.truthy negb]. destruct (MarkupRoute.findUnique db (c :: k)); [| contradiction].
    unfold MarkupRoute.validateRequest. now rewrite Hs.
Qed.

Lemma save_named_empty_name_rejected_witness :
  fst (MarkupRoute.POST sampleDb (JS.lit "m3") 40 (JS.lit "blueprint-1") (Some emptyNameBody))
    = sampleDb
  /\ MarkupRoute.status
       (snd (MarkupRoute.POST sampleDb (JS.lit "m3") 40 (JS.lit "blueprint-1")
               (Some emptyNameBody))) = 400.
Proof.
  pose proof (save_named_empty_name_rejected sampleDb (JS.lit "m3") 40 (JS.lit "blueprint-1")
                [ (JS.lit "name", JS.JString []);
                  (JS.lit "markupData", JS.JString (JS.lit "[]")) ] eq_refl)
    as (H1 & _ & _ & _ & H5).
  split; [exact H1 |].
  apply H5; vm_compute; discriminate.
Defined.

(* ================================================================= *)
(** ** Gestures: press, move, release *)

Section Gestures.
Implicit Types (s : State) (p down : Pointer) (ps : list Pointer) (el : DrawingElement).

(** A pointer move changes nothing but the element under construction. *)
Lemma moves_drawing ps : forall s el,
  isDrawing s = true -> currentElement s = Some el ->
  moves ps s
  = setCurrentElement
      (Some (fold_left (fun e p => dragUpdate (currentTool s) (logicalPoint s p) e) ps el)) s.
Proof.
  induction ps as [| p ps IH]; intros s el Hd Hc.
  - simpl. destruct s. simpl in *. now subst.
  - cbn [moves fold_left]. fold (moves ps (handlePointerMove (fst p) (snd p) s)).
    assert (Hstep : handlePointerMove (fst p) (snd p) s
                    = setCurrentElement
                        (Some (dragUpdate (currentTool s) (logicalPoint s p) el)) s).
    { unfold handlePointerMove. rewrite Hd, Hc. unfold dragUpdate, logicalPoint.
      now destruct (currentTool s). }
    rewrite Hstep.
    rewrite (IH (setCurrentElement
                   (Some (dragUpdate (currentTool s) (logicalPoint s p) el)) s)
                (dragUpdate (currentTool s) (logicalPoint s p) el) Hd eq_refl).
    reflexivity.
Qed.

Lemma moves_idle ps : forall s,
  isDrawing s = false \/ currentElement s = None -> moves ps s = s.
Proof.
  induction ps as [| p ps IH]; intros s H; [reflexivity |].
  cbn [moves fold_left]. fold (moves ps (handlePointerMove (fst p) (snd p) s)).
  assert (Hstep : handlePointerMove (fst p) (snd p) s = s).
  { unfold handlePointerMove. destruct H as [H | H]; rewrite H; [reflexivity |].
    now destruct (isDrawing s). }
  rewrite Hstep. now apply IH.
Qed.

Lemma pen_path env s ps : forall pts,
  fold_left (fun e p => dragUpdate Pen (logicalPoint s p) e) ps (penElement env s pts)
  = penElement env s (pts ++ map (logicalPoint s) ps).
Proof.
  induction ps as [| p ps IH]; intros pts; simpl.
  - now rewrite app_nil_r.
  - unfold appendPoint at 2. cbn [El.points El.id El.type El.startX El.startY El.endX
      El.endY El.text El.color El.strokeWidth El.timestamp penElement].
    change (El.mk (newId env) Pen (Some (pts ++ [logicalPoint s p])) None None None None None
              (currentColor s) (strokeWidth s) (now env))
      with (penElement env s (pts ++ [logicalPoint s p])).
    rewrite IH. now rewrite <- app_assoc.
Qed.

Lemma last_default {A} (l : list A) (d1 d2 : A) : l <> [] -> last l d1 = last l d2.
Proof.
  induction l as [| a l IH]; intros H; [contradiction |].
  destruct l as [| b l]; [reflexivity |]. cbn [last] in *. apply IH. discriminate.
Qed.

Lemma shape_end env s tool ps : forall (c0 c1 : Point),
  tool <> Pen ->
  fold_left (fun e p => dragUpdate tool (logicalPoint s p) e) ps (shapeElement env s tool c0 c1)
  = shapeElement env s tool c0 (last (map (logicalPoint s) ps) c1).
Proof.
  induction ps as [| p ps IH]; intros c0 c1 Ht; [reflexivity |].
  cbn [fold_left map].
  assert (Hu : dragUpdate tool (logicalPoint s p) (shapeElement env s tool c0 c1)
               = shapeElement env s tool c0 (logicalPoint s p)).
  { unfold dragUpdate. destruct tool; try contradiction; reflexivity. }
  rewrite Hu, (IH _ _ Ht).
  f_equal. destruct (map (logicalPoint s) ps) as [| q qs] eqn:E; [reflexivity |].
  change (last (logicalPoint s p :: q :: qs) c1) with (last (q :: qs) c1).
  apply last_default. discriminate.
Qed.

End Gestures.

(** X1. A pen gesture records every pointer position: after a press, any
    number of moves and a release with the pen selected, the committed list
    is the old one followed by one pen element whose path is the drawing
    point of the press followed by those of the moves, in order, with the
    colour and width selected at the press.  The stroke is painted only if
    the pointer moved at least once: then as one path that starts at the
    first point and runs through every recorded point; a press and release
    without a move commits a one-point stroke that paints nothing. *)
Theorem pen_gesture_records_path (s : State) (down : Pointer) (ps : list Pointer) :
  currentTool s = Pen ->
  let path := logicalPoint s down :: map (logicalPoint s) ps in
  let el := penElement (fst down) s path in
  elements (gesture down ps s) = elements s ++ [el]
  /\ isDrawing (gesture down ps s) = false
  /\ currentElement (gesture down ps s) = None
  /\ (ps = [] -> drawElement el = styleCalls (currentColor s) (strokeWidth s))
  /\ (ps <> [] ->
        drawElement el
        = styleCalls (currentColor s) (strokeWidth s)
          ++ [ BeginPath; MoveTo (x (logicalPoint s down)) (y (logicalPoint s down)) ]
          ++ map (fun q => LineTo (x q) (y q)) path
          ++ [ Stroke ]).
Proof.
  intros Ht path el.
  assert (Hg : gesture down ps s
               = handlePointerEnd (setCurrentElement (Some el) (setIsDrawing true s))).
  { unfold gesture.
    assert (Hs : handlePointerStart (fst down) (snd down) s
                 = setCurrentElement (Some (penElement (fst down) s [logicalPoint s down]))
                     (setIsDrawing true s)).
    { unfold handlePointerStart. now rewrite Ht. }
    rewrite Hs.
    rewrite (moves_drawing ps
               (setCurrentElement (Some (penElement (fst down) s [logicalPoint s down]))
                  (setIsDrawing true s))
               (penElement (fst down) s [logicalPoint s down]) eq_refl eq_refl).
    cbn [currentTool setCurrentElement setIsDrawing]. rewrite Ht.
    change (fun e p => dragUpdate Pen
              (logicalPoint (setCurrentElement
                 (Some (penElement (fst down) s [logicalPoint s down])) (setIsDrawing true s)) p) e)
      with (fun e p => dragUpdate Pen (logicalPoint s p) e).
    rewrite pen_path. reflexivity. }
  rewrite Hg. repeat split.
  - intros ->. reflexivity.
  - intros Hne. unfold el, path. destruct ps as [| p ps']; [contradiction |]. reflexivity.
Qed.

Lemma pen_gesture_records_path_witness :
  elements (gesture (pressAt 18 130) [pressAt 28 150; pressAt 48 160] (opened []))
  = elements (opened [])
    ++ [ penElement sampleEnv (opened []) [mkPoint 10 10; mkPoint 20 30; mkPoint 40 40] ].
Proof.
  exact (proj1 (pen_gesture_records_path (opened []) (pressAt 18 130)
                  [pressAt 28 150; pressAt 48 160] eq_refl)).
Defined.

(** X2. A shape gesture keeps the press point and follows the pointer: after
    a press, any number of moves and a release with the rectangle or the
    circle tool selected, the committed list is the old one followed by one
    element of that tool whose start is the drawing point of the press and
    whose end is that of the last move (of the press itself when there was
    no move).  A rectangle is then painted as the rectangle from the start
    with the signed extent to the end, a circle as the circle around the
    start through the end. *)
Theorem shape_gesture_follows_pointer
    (s : State) (tool : ElementType) (down : Pointer) (ps : list Pointer) :
  currentTool s = tool -> tool <> Pen -> tool <> Text ->
  let c0 := logicalPoint s down in
  let c1 := last (map (logicalPoint s) ps) c0 in
  let el := shapeElement (fst down) s tool c0 c1 in
  elements (gesture down ps s) = elements s ++ [el]
  /\ isDrawing (gesture down ps s) = false
  /\ currentElement (gesture down ps s) = None
  /\ (tool = Rectangle ->
        drawElement el
        = styleCalls (currentColor s) (strokeWidth s)
          ++ [ StrokeRect (x c0) (y c0) (x c1 - x c0) (y c1 - y c0) ])
  /\ (tool = Circle ->
        drawElement el
        = styleCalls (currentColor s) (strokeWidth s)
          ++ [ BeginPath;
               ArcFullCircle (x c0) (y c0)
                 ((x c1 - x c0) * (x c1 - x c0) + (y c1 - y c0) * (y c1 - y c0));
               Stroke ])%Q.
Proof.
  intros Ht Hpen Htext c0 c1 el.
  assert (Hg : gesture down ps s
               = handlePointerEnd (setCurrentElement (Some el) (setIsDrawing true s))).
  { unfold gesture.
    assert (Hs : handlePointerStart (fst down) (snd down) s
                 = setCurrentElement (Some (shapeElement (fst down) s tool c0 c0))
                     (setIsDrawing true s)).
    { unfold handlePointerStart. rewrite Ht.
      destruct tool; try contradiction; reflexivity. }
    rewrite Hs.
    rewrite (moves_drawing ps
               (setCurrentElement (Some (shapeElement (fst down) s tool c0 c0))
                  (setIsDrawing true s))
               (shapeElement (fst down) s tool c0 c0) eq_refl eq_refl).
    cbn [currentTool setCurrentElement setIsDrawing]. rewrite Ht.
    change (fun e p => dragUpdate tool
              (logicalPoint (setCurrentElement
                 (Some (shapeElement (fst down) s tool c0 c0)) (setIsDrawing true s)) p) e)
      with (fun e p => dragUpdate tool (logicalPoint s p) e).
    rewrite (shape_end (fst down) s tool ps c0 c0 Hpen). reflexivity. }
  rewrite Hg. repeat split.
  - intros ->. reflexivity.
  - intros ->. reflexivity.
Qed.

Lemma shape_gesture_follows_pointer_witness :
  elements (gesture (pressAt 58 170) [pressAt 30 150; pressAt 18 130]
              (setCurrentTool Rectangle (opened [])))
  = elements (setCurrentTool Rectangle (opened []))
    ++ [ shapeElement sampleEnv (setCurrentTool Rectangle (opened [])) Rectangle
           (mkPoint 50 50) (mkPoint 10 10) ].
Proof.
  refine (proj1 (shape_gesture_follows_pointer (setCurrentTool Rectangle (opened []))
                   Rectangle (pressAt 58 170) [pressAt 30 150; pressAt 18 130]
                   eq_refl _ _)); discriminate.
Defined.

(** X3. A release commits at most once: a second release right after the
    first changes nothing, and neither do moves and releases while no drag
    is in progress. *)
Theorem release_commits_once (s : State) (ps : list Pointer) :
  handlePointerEnd (handlePointerEnd s) = handlePointerEnd s
  /\ moves ps (handlePointerEnd s) = handlePointerEnd s
  /\ (isDrawing s = false -> handlePointerEnd (moves ps s) = s).
Proof.
  assert (Hidle : isDrawing (handlePointerEnd s) = false
                  \/ currentElement (handlePointerEnd s) = None).
  { unfold handlePointerEnd.
    destruct (isDrawing s) eqn:Hd; [| now left].
    destruct (currentElement s) eqn:Hc; [now left | now right]. }
  split; [now apply handlePointerEnd_idle |].
  split; [now apply moves_idle |].
  intros Hd. rewrite moves_idle by now left. apply handlePointerEnd_idle. now left.
Qed.

Lemma release_commits_once_witness :
  handlePointerEnd (moves [pressAt 30 150] midHistory) = midHistory.
Proof.
  exact (proj2 (proj2 (release_commits_once midHistory [pressAt 30 150])) eq_refl).
Defined.

Section Painting.
Implicit Types (s : State) (env : Env).

(** What is painted depends on the committed elements and the viewport only. *)
Lemma drawElements_ext env s1 s2 :
  elements s1 = elements s2 -> zoom s1 = zoom s2 -> pan s1 = pan s2 ->
  drawElements env s1 = drawElements env s2.
Proof.
  intros He Hz Hp. unfold drawElements, viewportTransform. now rewrite He, Hz, Hp.
Qed.

Lemma handlePointerStart_view env (e : PointerEvent) s :
  sameHistory s (handlePointerStart env e s)
  /\ zoom (handlePointerStart env e s) = zoom s
  /\ pan (handlePointerStart env e s) = pan s.
Proof. unfold handlePointerStart. destruct (currentTool s); repeat split. Qed.

Lemma handlePointerMove_view env (e : PointerEvent) s :
  sameHistory s (handlePointerMove env e s)
  /\ zoom (handlePointerMove env e s) = zoom s
  /\ pan (handlePointerMove env e s) = pan s.
Proof.
  unfold handlePointerMove.
  destruct (isDrawing s), (currentElement s), (currentTool s); repeat split.
Qed.

Lemma moves_view ps : forall s,
  sameHistory s (moves ps s) /\ zoom (moves ps s) = zoom s /\ pan (moves ps s) = pan s.
Proof.
  induction ps as [| p ps IH]; intros s; [repeat split |].
  cbn [moves fold_left]. fold (moves ps (handlePointerMove (fst p) (snd p) s)).
  destruct (IH (handlePointerMove (fst p) (snd p) s)) as ((I1 & I2 & I3) & I4 & I5).
  destruct (handlePointerMove_view (fst p) (snd p) s) as ((H1 & H2 & H3) & H4 & H5).
  unfold sameHistory. rewrite I1, I2, I3, I4, I5. repeat split; assumption.
Qed.

End Painting.

(** X4. The element under construction is not painted: from the press
    through every move of a drag, with any tool, the canvas receives exactly
    the calls it received before the press, and elements, history and index
    stay as they were.  Only the release changes the picture. *)
Theorem drag_paints_nothing (env : Env) (s : State) (down : Pointer) (ps : list Pointer) :
  drawElements env (moves ps (handlePointerStart (fst down) (snd down) s)) = drawElements env s
  /\ sameHistory s (moves ps (handlePointerStart (fst down) (snd down) s)).
Proof.
  destruct (moves_view ps (handlePointerStart (fst down) (snd down) s))
    as ((I1 & I2 & I3) & I4 & I5).
  destruct (handlePointerStart_view (fst down) (snd down) s) as ((H1 & H2 & H3) & H4 & H5).
  split.
  - apply drawElements_ext; congruence.
  - unfold sameHistory. repeat split; congruence.
Qed.

(** X5. With the text tool a press starts no drag: it records the drawing
    point as the text position and opens the text overlay, and the moves and
    the release that follow commit nothing when no drag was in progress. *)
Theorem text_press_opens_overlay (s : State) (down : Pointer) (ps : list Pointer) :
  currentTool s = Text -> isDrawing s = false ->
  gesture down ps s = setShowTextInput true (setTextPosition (logicalPoint s down) s)
  /\ sameHistory s (gesture down ps s)
  /\ currentElement (gesture down ps s) = currentElement s.
Proof.
  intros Ht Hd.
  assert (Hs : handlePointerStart (fst down) (snd down) s
               = setShowTextInput true (setTextPosition (logicalPoint s down) s)).
  { unfold handlePointerStart. now rewrite Ht. }
  assert (Hg : gesture down ps s
               = setShowTextInput true (setTextPosition (logicalPoint s down) s)).
  { unfold gesture. rewrite Hs. rewrite moves_idle by (left; exact Hd).
    apply handlePointerEnd_idle. left. exact Hd. }
  rewrite Hg. repeat split.
Qed.

Lemma text_press_opens_overlay_witness :
  textPosition (gesture (pressAt 108 220) [pressAt 110 221]
                  (setCurrentTool Text (opened [])))
  = mkPoint 100 100
  /\ showTextInput (gesture (pressAt 108 220) [pressAt 110 221]
                      (setCurrentTool Text (opened []))) = true.
Proof.
  rewrite (proj1 (text_press_opens_overlay (setCurrentTool Text (opened []))
                    (pressAt 108 220) [pressAt 110 221] eq_refl eq_refl)).
  split; reflexivity.
Defined.

Section CommitPainting.
Implicit Types (s : State) (env : Env) (ev : Event).

Lemma commit_view s ev :
  commits s ev = true -> zoom (step s ev) = zoom s /\ pan (step s ev) = pan s.
Proof.
  destruct ev as [r | env e | env e | | t | env | | | | | tool | c | w | | | | o | n | cb];
    cbn [commits step]; intros Hc; try discriminate.
  - unfold handlePointerEnd. destruct (isDrawing s), (currentElement s); now split.
  - unfold handleAddText. rewrite Hc. now split.
Qed.

End CommitPainting.

(** X6. A commit paints the new element on top: when an event commits an
    element while canvas and image are there, the canvas receives the calls
    of the picture before (up to its closing restore), then the calls for
    the new element, then the restore.  Elements are painted in list order,
    so later ones cover earlier ones. *)
Theorem commit_paints_on_top (env : Env) (cv : CanvasBox) (s : State) (ev : Event) :
  canvas env = Some cv -> image env = true -> commits s ev = true ->
  exists a before,
    elements (step s ev) = elements s ++ [a]
    /\ drawElements env s = before ++ [Restore]
    /\ drawElements env (step s ev) = before ++ drawElement a ++ [Restore].
Proof.
  intros Hc Hi Hcm.
  destruct (commit_pushes s ev Hcm) as (a & _ & _ & He).
  destruct (commit_view s ev Hcm) as [Hz Hp].
  exists a.
  exists ([ ClearRect 0 0 (width cv) (height cv); Save ]
          ++ viewportTransform s
          ++ [ DrawImage 0 0 (width cv / zoom s)%Q (height cv / zoom s)%Q ]
          ++ flat_map drawElement (elements s)).
  split; [exact He |]. split.
  - unfold drawElements. rewrite Hc, Hi. now rewrite <- !app_assoc.
  - unfold drawElements, viewportTransform. rewrite Hc, Hi, He, Hz, Hp.
    rewrite flat_map_app. cbn [flat_map]. rewrite app_nil_r. now rewrite <- !app_assoc.
Qed.

Lemma commit_paints_on_top_witness :
  exists a before,
    elements (step (beginDrawing rectB (opened [strokeA])) PointerUp)
    = elements (beginDrawing rectB (opened [strokeA])) ++ [a]
    /\ drawElements sampleEnv (beginDrawing rectB (opened [strokeA])) = before ++ [Restore]
    /\ drawElements sampleEnv (step (beginDrawing rectB (opened [strokeA])) PointerUp)
       = before ++ drawElement a ++ [Restore].
Proof.
  exact (commit_paints_on_top sampleEnv (mkCanvasBox 8 120 800 600)
           (beginDrawing rectB (opened [strokeA])) PointerUp eq_refl eq_refl eq_refl).
Defined.

(** X7. Every label that a text confirmation commits is painted: the new
    element is drawn as the typed text, untrimmed, at the recorded text
    position, filled with the selected colour in a font of six times the
    selected width. *)
Theorem committed_label_is_painted (env : Env) (s : State) :
  forallb JS.isWhiteSpace (textInput s) = false ->
  exists label,
    elements (handleAddText env s) = elements s ++ [label]
    /\ drawElement label
       = styleCalls (currentColor s) (strokeWidth s)
         ++ [ SetFillStyle (currentColor s);
              SetFontPx (strokeWidth s * 6)%Q;
              FillText (textInput s) (x (textPosition s)) (y (textPosition s)) ].
Proof.
  intros Hws.
  assert (Ht : JS.truthy (JS.trim (textInput s)) = true) by (rewrite trim_truthy, Hws; reflexivity).
  assert (Hne : JS.truthy (textInput s) = true).
  { destruct (textInput s); [discriminate | reflexivity]. }
  unfold handleAddText. rewrite Ht. cbn [negb].
  eexists. split; [reflexivity |].
  unfold drawElement, styleCalls. cbn [El.type El.text El.startX El.startY El.color El.strokeWidth].
  now rewrite Hne.
Qed.

Lemma committed_label_is_painted_witness :
  exists label,
    elements (handleAddText sampleEnv (setTextInput (JS.lit " beam ") midHistory))
    = elements midHistory ++ [label]
    /\ In (FillText (JS.lit " beam ") 0 0) (drawElement label).
Proof.
  destruct (committed_label_is_painted sampleEnv (setTextInput (JS.lit " beam ") midHistory)
              eq_refl) as (label & He & Hd).
  exists label. split; [exact He |]. rewrite Hd. right; right; right; right; right; right.
  left. reflexivity.
Defined.

(* ================================================================= *)
(** ** Round trips through the history *)

Section HistoryRoundTrips.
Implicit Types (s : State) (ev : Event).

Lemma setters_restore s (i : Z) (els : list DrawingElement) :
  i = historyIndex s -> els = elements s ->
  setElements els (setHistoryIndex i s) = s.
Proof. intros -> ->. now destruct s. Qed.

Lemma redo_undo s : historyInvariant s -> 0 < historyIndex s -> redo (undo s) = s.
Proof.
  intros Hinv Hpos. destruct (undo_inside s Hinv Hpos) as (p & Hp & Hu).
  destruct Hinv as [[H0 Hlen] Hs]. unfold synced in Hs.
  rewrite Hu. unfold redo.
  cbn [historyIndex history setElements setHistoryIndex].
  destruct (Z.ltb_spec (historyIndex s - 1) (JS.length (history s) - 1)); [| lia].
  replace (historyIndex s - 1 + 1) with (historyIndex s) by lia.
  rewrite Hs. now destruct s.
Qed.

Lemma undo_redo s :
  historyInvariant s -> historyIndex s < JS.length (history s) - 1 -> undo (redo s) = s.
Proof.
  intros [[H0 Hlen] Hs] Hlt. unfold synced in Hs.
  destruct (redo_inside s ltac:(lia) Hlt) as (p & Hp & Hr).
  rewrite Hr. unfold undo.
  cbn [historyIndex history setElements setHistoryIndex].
  destruct (Z.gtb_spec (historyIndex s + 1) 0); [| lia].
  replace (historyIndex s + 1 - 1) with (historyIndex s) by lia.
  rewrite Hs. now destruct s.
Qed.

(** Undo right after a push shows what was rendered before it, provided the
    history had an entry for it. *)
Lemma undo_pushed s s' v :
  historyInvariant s -> pushed s s' v -> elements (undo s') = elements s.
Proof.
  intros Hinv Hp. pose proof Hinv as [[H0 Hlen] Hs]. unfold synced in Hs.
  destruct (pushed_keeps_prefix s s' v ltac:(lia) Hp) as (Hl & _ & Hpre).
  destruct (pushed_invariant _ _ _ Hp) as [Hinv' Htip]. unfold atTip in Htip.
  destruct (undo_inside s' Hinv' ltac:(lia)) as (p & Hg & Hu).
  rewrite Hu. cbn [elements setElements].
  replace (historyIndex s' - 1) with (historyIndex s) in Hg by lia.
  rewrite Hpre in Hg by lia. congruence.
Qed.

(** From the unseeded state a push creates the only entry, and undo has
    nowhere to go. *)
Lemma undo_pushed_unseeded s s' v : unseeded s -> pushed s s' v -> undo s' = s'.
Proof.
  intros (Hh & Hi & _) (Hh' & Hi' & _).
  apply undo_at_start. rewrite Hi', Hh', Hh, Hi. simpl. lia.
Qed.

End HistoryRoundTrips.

(** X8. Undo and redo are inverse to each other inside the history: in a
    reachable state with a positive index, undo followed by redo gives back
    the very same state, and in a reachable state with something to redo,
    redo followed by undo does. *)
Theorem undo_redo_round_trip (s : State) :
  reachable s ->
  (0 < historyIndex s -> redo (undo s) = s)
  /\ (historyIndex s < JS.length (history s) - 1 -> undo (redo s) = s).
Proof.
  intros Hr. apply reachable_viewer_invariant in Hr. split.
  - intros Hpos. destruct Hr as [(_ & Hi & _) | Hinv]; [lia |]. now apply redo_undo.
  - intros Hlt. destruct Hr as [(Hh & Hi & _) | Hinv].
    + rewrite Hh, Hi in Hlt. simpl in Hlt. lia.
    + now apply undo_redo.
Qed.

Lemma undo_redo_round_trip_witness :
  redo (undo midHistory) = midHistory /\ undo (redo midHistory) = midHistory.
Proof.
  assert (Hmid : reachable midHistory).
  { exists [InitialMarkups (Value (IsArray [])); PointerDown sampleEnv (mkPointerEvent 18 130);
            PointerUp; PointerDown sampleEnv (mkPointerEvent 30 140); PointerUp; Undo].
    reflexivity. }
  destruct (undo_redo_round_trip midHistory Hmid) as [H1 H2].
  split; [apply H1 | apply H2]; vm_compute; reflexivity.
Defined.

(** X9. Clear all can be undone: in every reachable state, clearing empties
    the rendered list, and one undo right after it shows the elements from
    before the clear again. *)
Theorem clear_can_be_undone (s : State) :
  reachable s ->
  elements (clearAll s) = [] /\ elements (undo (clearAll s)) = elements s.
Proof.
  intros Hr. split; [reflexivity |].
  apply reachable_viewer_invariant in Hr. destruct Hr as [Hu | Hinv].
  - rewrite (undo_pushed_unseeded s (clearAll s) [] Hu (clearAll_pushed s)).
    destruct Hu as (_ & _ & He). now rewrite He.
  - exact (undo_pushed s (clearAll s) [] Hinv (clearAll_pushed s)).
Qed.

Lemma clear_can_be_undone_witness :
  elements (clearAll midHistory) = []
  /\ elements (undo (clearAll midHistory)) = elements midHistory.
Proof.
  apply clear_can_be_undone.
  exists [InitialMarkups (Value (IsArray [])); PointerDown sampleEnv (mkPointerEvent 18 130);
          PointerUp; PointerDown sampleEnv (mkPointerEvent 30 140); PointerUp; Undo].
  reflexivity.
Defined.

(** X10. Whether a commit can be undone depends on the history having been
    seeded.  Once the history has an entry, one undo after a commit shows
    the elements from before it.  In a viewer whose history was never seeded
    (no markup loaded as an array, nothing committed or cleared yet), the
    first commit becomes the only history entry, and undo leaves its element
    on screen. *)
Theorem first_commit_needs_seeded_history (s : State) (ev : Event) :
  commits s ev = true ->
  (historyInvariant s -> elements (undo (step s ev)) = elements s)
  /\ (unseeded s ->
        undo (step s ev) = step s ev
        /\ exists a, elements (undo (step s ev)) = [a] /\ history (step s ev) = [[a]]).
Proof.
  intros Hc. destruct (commit_pushes s ev Hc) as (a & Hp). split.
  - intros Hinv. exact (undo_pushed s (step s ev) _ Hinv Hp).
  - intros Hu. pose proof (undo_pushed_unseeded s (step s ev) _ Hu Hp) as Hun.
    split; [exact Hun |]. exists a. rewrite Hun.
    destruct Hu as (Hh & Hi & He). destruct Hp as (Hh' & _ & He').
    rewrite He', Hh', Hh, Hi, He. split; reflexivity.
Qed.

Lemma first_commit_needs_seeded_history_witness :
  elements (undo (step (beginDrawing rectB midHistory) PointerUp))
  = elements (beginDrawing rectB midHistory)
  /\ undo (step (beginDrawing strokeA afterBadMarkup) PointerUp)
     = step (beginDrawing strokeA afterBadMarkup) PointerUp.
Proof.
  split.
  - apply (proj1 (first_commit_needs_seeded_history (beginDrawing rectB midHistory) PointerUp
                    eq_refl)).
    split; [| reflexivity]. unfold indexInRange. vm_compute. split; [discriminate | reflexivity].
  - apply (proj2 (first_commit_needs_seeded_history (beginDrawing strokeA afterBadMarkup)
                    PointerUp eq_refl)).
    split; [reflexivity |]. split; reflexivity.
Defined.



(** X12. Nothing can be redone after a commit or a clear: whatever the state
    before, redo right after an event that commits an element, or right
    after clear all, changes nothing. *)
Theorem redo_after_push_is_noop (s : State) (ev : Event) :
  (commits s ev = true -> redo (step s ev) = step s ev)
  /\ redo (clearAll s) = clearAll s.
Proof.
  split.
  - intros Hc. destruct (commit_pushes s ev Hc) as (a & Hp).
    destruct (pushed_invariant _ _ _ Hp) as [_ Htip]. unfold atTip in Htip.
    apply redo_at_tip. lia.
  - destruct (pushed_invariant _ _ _ (clearAll_pushed s)) as [_ Htip]. unfold atTip in Htip.
    apply redo_at_tip. lia.
Qed.

Lemma redo_after_push_is_noop_witness :
  redo (step (beginDrawing circleC midHistory) PointerUp)
  = step (beginDrawing circleC midHistory) PointerUp.
Proof.
  exact (proj1 (redo_after_push_is_noop (beginDrawing circleC midHistory) PointerUp) eq_refl).
Defined.

(* ================================================================= *)
(** ** Saving, panning and the text overlay *)

(** X13. Saving from the dialog: the callback is called exactly when there
    is one and the markup name has a character that is not white space, and
    it is handed the committed elements.  Saving never changes elements,
    history or index.  When the call succeeds the dialog closes and the name
    is cleared; when it fails the error is logged and the state stays as it
    was, dialog open and name kept; when no call is made nothing changes
    and nothing is logged. *)
Theorem save_markup_behaviour (cb : SaveCallback) (s : State) :
  let '(s', log, request) := saveMarkup cb s in
  sameHistory s s'
  /\ (request <> None <->
        cb <> NoCallback /\ forallb JS.isWhiteSpace (markupName s) = false)
  /\ (request <> None -> request = Some (elements s))
  /\ (request = None -> s' = s /\ log = [])
  /\ (request <> None -> cb = Resolves ->
        s' = setMarkupName [] (setShowSaveDialog false s) /\ log = [])
  /\ (request <> None -> cb = Rejects -> s' = s /\ log = [ErrorSavingMarkup]).
Proof.
  unfold saveMarkup, saveMarkupRequest.
  pose proof (trim_truthy (markupName s)) as Ht.
  destruct cb; cbn [saveMarkupSettled fst snd];
    try (destruct (forallb JS.isWhiteSpace (markupName s)); rewrite Ht; cbn [negb]);
    repeat split; intros;
    repeat match goal with H : _ /\ _ |- _ => destruct H end;
    try congruence; try discriminate.
Qed.

Section Pan.
Implicit Types (s : State) (ev : Event).

Lemma step_pan s ev : pan (step s ev) = pan s \/ pan (step s ev) = mkPoint 0 0.
Proof.
  destruct ev as [r | env e | env e | | t | env | | | | | tool | c | w | | | | o | n | cb];
    cbn [step]; try (left; reflexivity); try (right; reflexivity); left.
  - now destruct r as [| [| m]].
  - unfold handlePointerStart. now destruct (currentTool s).
  - unfold handlePointerMove.
    now destruct (isDrawing s), (currentElement s), (currentTool s).
  - unfold handlePointerEnd. now destruct (isDrawing s), (currentElement s).
  - unfold handleAddText. now destruct (negb (JS.truthy (JS.trim (textInput s)))).
  - unfold undo. destruct (historyIndex s >? 0); [| reflexivity].
    now destruct (JS.get (history s) (historyIndex s - 1)).
  - unfold redo. destruct (historyIndex s <? JS.length (history s) - 1); [| reflexivity].
    now destruct (JS.get (history s) (historyIndex s + 1)).
  - now destruct cb.
Qed.

Lemma run_pan evs : forall s, pan s = mkPoint 0 0 -> pan (run evs s) = mkPoint 0 0.
Proof.
  induction evs as [| ev k IH]; intros s H; simpl; [exact H |].
  apply IH. destruct (step_pan s ev) as [Hp | Hp]; congruence.
Qed.

End Pan.

(** X14. The viewer never pans: in every reachable state the pan is the
    origin, since the only handler that sets it is reset view.  So for a
    canvas that is there, the drawing point under a pointer is its offset
    from the canvas origin divided by the zoom, and the viewport transform
    is the scaling by the zoom alone. *)
Theorem viewer_never_pans (s : State) (env : Env) (rect : CanvasBox) (cX cY : Q) :
  reachable s -> canvas env = Some rect ->
  pan s = mkPoint 0 0
  /\ samePoint (getCanvasPoint env s cX cY)
               (mkPoint ((cX - left rect) / zoom s) ((cY - top rect) / zoom s))%Q
  /\ viewportTransform s = [ Scale (zoom s) (zoom s); Translate 0 0 ].
Proof.
  intros [evs ->] Hc.
  assert (Hp : pan (run evs initialState) = mkPoint 0 0) by (now apply run_pan).
  split; [exact Hp |]. split.
  - unfold samePoint, getCanvasPoint. rewrite Hc, Hp. cbn [x y].
    split; unfold Qdiv; ring.
  - unfold viewportTransform. now rewrite Hp.
Qed.

Lemma viewer_never_pans_witness :
  pan (run (ZoomIn :: sampleSession) (opened [])) = mkPoint 0 0.
Proof.
  refine (proj1 (viewer_never_pans (run (ZoomIn :: sampleSession) (opened [])) sampleEnv
                   (mkCanvasBox 8 120 800 600) 0 0 _ eq_refl)).
  exists (InitialMarkups (Value (IsArray [])) :: ZoomIn :: sampleSession). reflexivity.
Defined.

(** X15. A text confirmation adds at most one label: confirming a second
    time right after the first changes nothing, because the first one
    clears the input; and confirming after a cancel adds nothing, because
    the cancel does. *)
Theorem text_confirm_once (env1 env2 : Env) (s : State) :
  handleAddText env2 (handleAddText env1 s) = handleAddText env1 s
  /\ handleAddText env2 (cancelText s) = cancelText s
  /\ sameHistory s (cancelText s).
Proof.
  split; [| split; [| repeat split]].
  - unfold handleAddText at 2 3.
    destruct (negb (JS.truthy (JS.trim (textInput s)))) eqn:Hb.
    + unfold handleAddText. cbn [textInput setShowTextInput]. now rewrite Hb.
    + reflexivity.
  - reflexivity.
Qed.

Lemma save_markup_behaviour_witness :
  snd (saveMarkup Resolves (setMarkupName (JS.lit "rev 2") midHistory))
  = Some (elements (setMarkupName (JS.lit "rev 2") midHistory))
  /\ sameHistory (setMarkupName (JS.lit "rev 2") midHistory)
       (fst (fst (saveMarkup Resolves (setMarkupName (JS.lit "rev 2") midHistory)))).
Proof.
  pose proof (save_markup_behaviour Resolves (setMarkupName (JS.lit "rev 2") midHistory)) as H.
  destruct (saveMarkup Resolves (setMarkupName (JS.lit "rev 2") midHistory))
    as [[s' log] request] eqn:E.
  destruct H as (Hsame & Hiff & Hreq & _).
  cbn [fst snd]. split; [| exact Hsame].
  apply Hreq. apply Hiff. split; [discriminate | vm_compute; reflexivity].
Defined.

(* ================================================================= *)
(** ** The markup route: validation, writes and listings *)

Section RouteFacts.
Import JS MarkupRoute.
Implicit Types (db : Db) (bp : jsstring) (m : BlueprintMarkup) (l : list BlueprintMarkup).

Lemma jsstring_eqb_eq (a b : jsstring) : jsstring_eqb a b = true <-> a = b.
Proof.
  unfold jsstring_eqb. destruct (list_eq_dec N.eq_dec a b); split; congruence.
Qed.

Lemma jsstring_eqb_refl (a : jsstring) : jsstring_eqb a a = true.
Proof. now apply jsstring_eqb_eq. Qed.

Lemma jsstring_eqb_neq (a b : jsstring) : a <> b -> jsstring_eqb a b = false.
Proof.
  intros H. destruct (jsstring_eqb a b) eqn:E; [| reflexivity].
  apply jsstring_eqb_eq in E. contradiction.
Qed.

Lemma truthy_nonempty (a : jsstring) : truthy a = true <-> a <> [].
Proof. destruct a; simpl; split; congruence. Qed.

Lemma zStringMin1_accepts (field msg : string) (v : option json) (t : jsstring) :
  snd (zStringMin1 field msg v) = Some t <-> v = Some (JString t) /\ t <> [].
Proof.
  unfold zStringMin1. destruct v as [[| b | q | u | items | fields] |]; simpl;
    try (split; [discriminate | intros [H _]; discriminate]).
  destruct u as [| c u]; simpl.
  - split; [discriminate | intros [H Hne]; inversion H; subst; contradiction].
  - unfold JS.length. cbn [List.length].
    destruct (Z.ltb_spec (Z.of_nat (S (List.length u))) 1) as [Hlt | Hge]; [lia |]. simpl.
    split.
    + intros H. inversion H; subst. split; [reflexivity | discriminate].
    + intros [H _]. now inversion H.
Qed.

Lemma zStringOptional_accepts (field : string) (v : option json) (o : option jsstring) :
  snd (zStringOptional field v) = Some o
  <-> match o with Some t => v = Some (JString t) | None => v = None end.
Proof.
  unfold zStringOptional. destruct v as [[| b | q | u | items | fields] |], o as [t |]; simpl;
    split; intros H; try discriminate; try congruence.
Qed.

Lemma zBooleanDefault_accepts (field : string) (dflt : bool) (v : option json) (b : bool) :
  snd (zBooleanDefault field dflt v) = Some b
  <-> v = Some (JBool b) \/ (v = None /\ b = dflt).
Proof.
  unfold zBooleanDefault. destruct v as [[| c | q | u | items | fields] |]; simpl;
    split; intros H; try discriminate; try congruence;
    try (destruct H as [H | [H _]]; congruence).
  - left. congruence.
  - right. split; congruence.
  - destruct H as [H | [_ H]]; congruence.
Qed.

Lemma schema_accepts (fields : list (jsstring * json)) (d : MarkupSave) :
  MarkupSaveSchema (JObject fields) = inr d
  <-> snd (zStringMin1 "name" "Markup name is required" (property (lit "name") fields))
        = Some (name d)
      /\ snd (zStringMin1 "markupData" "Markup data is required"
                (property (lit "markupData") fields)) = Some (markupData d)
      /\ snd (zStringOptional "description" (property (lit "description") fields))
         = Some (description d)
      /\ snd (zBooleanDefault "isShared" false (property (lit "isShared") fields))
         = Some (isShared d)
      /\ snd (zStringOptional "userId" (property (lit "userId") fields)) = Some (userId d).
Proof.
  unfold MarkupSaveSchema.
  destruct (zStringMin1 "name" "Markup name is required" (property (lit "name") fields))
    as [i1 [v1 |]];
  destruct (zStringMin1 "markupData" "Markup data is required"
              (property (lit "markupData") fields)) as [i2 [v2 |]];
  destruct (zStringOptional "description" (property (lit "description") fields)) as [i3 [v3 |]];
  destruct (zBooleanDefault "isShared" false (property (lit "isShared") fields)) as [i4 [v4 |]];
  destruct (zStringOptional "userId" (property (lit "userId") fields)) as [i5 [v5 |]];
  cbn [snd]; destruct d as [n md de sh us]; cbn [name markupData description isShared userId];
  split; intros H;
  try discriminate;
  try (destruct H as (H1 & H2 & H3 & H4 & H5); discriminate).
  - inversion H; subst. repeat split.
  - destruct H as (H1 & H2 & H3 & H4 & H5). congruence.
Qed.

(** Inserting into a listing. *)
Lemma insert_perm m l : Permutation (insertByUpdatedAtDesc m l) (m :: l).
Proof.
  induction l as [| h t IH]; simpl; [reflexivity |].
  destruct (updatedAt h <? updatedAt m); [reflexivity |].
  rewrite IH. apply perm_swap.
Qed.

Lemma insert_sorted m l :
  StronglySorted newerFirst l -> StronglySorted newerFirst (insertByUpdatedAtDesc m l).
Proof.
  induction l as [| h t IH]; intros Hs; simpl.
  - constructor; constructor.
  - inversion Hs as [| ? ? Ht Hall]; subst.
    destruct (Z.ltb_spec (updatedAt h) (updatedAt m)) as [Hlt | Hge].
    + constructor; [exact Hs |]. constructor.
      * unfold newerFirst. lia.
      * eapply Forall_impl; [| exact Hall]. unfold newerFirst. intros a Ha. lia.
    + constructor; [now apply IH |].
      eapply Permutation_Forall; [symmetry; apply insert_perm |].
      constructor; [unfold newerFirst; lia | exact Hall].
Qed.

Lemma sort_perm l : Permutation (fold_right insertByUpdatedAtDesc [] l) l.
Proof.
  induction l as [| h t IH]; simpl; [reflexivity |].
  rewrite insert_perm. now constructor.
Qed.

Lemma sort_sorted l : StronglySorted newerFirst (fold_right insertByUpdatedAtDesc [] l).
Proof.
  induction l as [| h t IH]; simpl; [constructor | now apply insert_sorted].
Qed.

Lemma findUnique_some db bp b : findUnique db bp = Some b -> bpId b = bp.
Proof.
  unfold findUnique. intros H. apply find_some in H. now apply jsstring_eqb_eq.
Qed.

End RouteFacts.

(** X16. [MarkupSaveSchema] accepts exactly the objects whose name and
    markup data are non-empty strings, whose description and user id are
    strings or absent, and whose shared flag is a boolean or absent; the
    parsed value carries these fields, with the shared flag false when it
    was absent, and drops every other member.  A body that is not an object
    is rejected. *)
Theorem save_schema_accepts_exactly
    (fields : list (JS.jsstring * JS.json)) (d : MarkupRoute.MarkupSave) :
  (MarkupRoute.MarkupSaveSchema (JS.JObject fields) = inr d <-> acceptedSave fields d)
  /\ (forall body, (forall members, body <> JS.JObject members) ->
        exists issues, MarkupRoute.MarkupSaveSchema body = inl issues).
Proof.
  split.
  - rewrite schema_accepts. unfold acceptedSave.
    rewrite !zStringMin1_accepts, !zStringOptional_accepts, zBooleanDefault_accepts.
    tauto.
  - intros body H. destruct body as [| b | q | t | items | members];
      try (eexists; reflexivity). now contradiction (H members).
Qed.

Lemma save_schema_accepts_exactly_witness :
  MarkupRoute.MarkupSaveSchema (saveBody (JS.lit "rev 2") (JS.lit "[]"))
  = inr (MarkupRoute.mkMarkupSave (JS.lit "rev 2") (JS.lit "[]") None false None).
Proof.
  apply (proj1 (save_schema_accepts_exactly _ _)).
  unfold acceptedSave. cbn [MarkupRoute.name MarkupRoute.markupData MarkupRoute.description
    MarkupRoute.isShared MarkupRoute.userId].
  split; [split; [reflexivity | discriminate] |].
  split; [split; [reflexivity | discriminate] |].
  split; [reflexivity |]. split; [right; split; reflexivity | reflexivity].
Defined.

Section RouteWrites.
Import JS MarkupRoute.
Implicit Types (db : Db) (bp : jsstring).



Lemma find_map_replace (rows : list Blueprint) (bp other : jsstring) (row : Blueprint) :
  bpId row = bp ->
  find (fun b => jsstring_eqb (bpId b) other)
       (map (fun b => if jsstring_eqb (bpId b) bp then row else b) rows)
  = if jsstring_eqb bp other
    then match find (fun b => jsstring_eqb (bpId b) bp) rows with
         | Some _ => Some row
         | None => None
         end
    else find (fun b => jsstring_eqb (bpId b) other) rows.
Proof.
  intros Hrow. induction rows as [| h t IH]; cbn [map find].
  - now destruct (jsstring_eqb bp other).
  - destruct (jsstring_eqb (bpId h) bp) eqn:Eh.
    + apply jsstring_eqb_eq in Eh. rewrite Hrow.
      destruct (jsstring_eqb bp other) eqn:Eo; [reflexivity |].
      rewrite Eh, Eo. exact IH.
    + destruct (jsstring_eqb (bpId h) other) eqn:Eho.
      * apply jsstring_eqb_eq in Eho. subst other.
        destruct (jsstring_eqb bp (bpId h)) eqn:E2; [| reflexivity].
        apply jsstring_eqb_eq in E2. rewrite E2, jsstring_eqb_refl in Eh. discriminate.
      * exact IH.
Qed.


End RouteWrites.




(** X19. The listing of a blueprint's named saves holds exactly the rows
    stored for that blueprint, each as often as it is stored, ordered so
    that no row is older (by its update time) than a row after it.  The GET
    route answers with it for every non-empty blueprint id, whether or not a
    blueprint with that id exists, and with 400 for the empty id. *)
Theorem listing_is_sorted_filter (db : MarkupRoute.Db) (bp : JS.jsstring) :
  StronglySorted newerFirst (MarkupRoute.findMany db bp)
  /\ Permutation (MarkupRoute.findMany db bp)
       (filter (fun m => JS.jsstring_eqb (MarkupRoute.blueprintId m) bp)
               (MarkupRoute.blueprintMarkup db))
  /\ (forall m, In m (MarkupRoute.findMany db bp)
                <-> In m (MarkupRoute.blueprintMarkup db) /\ MarkupRoute.blueprintId m = bp)
  /\ (bp <> [] ->
        MarkupRoute.GET db bp
        = MarkupRoute.mkResponse 200 true (MarkupRoute.Markups (MarkupRoute.findMany db bp)))
  /\ (bp = [] -> MarkupRoute.status (MarkupRoute.GET db bp) = 400
                 /\ MarkupRoute.success (MarkupRoute.GET db bp) = false).
Proof.
  split; [apply sort_sorted |]. split; [apply sort_perm |]. split; [| split].
  - intros m. unfold MarkupRoute.findMany. split.
    + intros H. apply (Permutation_in _ (sort_perm _)) in H.
      apply filter_In in H. destruct H as [H1 H2]. split; [exact H1 |].
      now apply jsstring_eqb_eq.
    + intros [H1 H2]. apply (Permutation_in _ (Permutation_sym (sort_perm _))).
      apply filter_In. split; [exact H1 |]. now apply jsstring_eqb_eq.
  - intros Hne. unfold MarkupRoute.GET. destruct bp; [contradiction | reflexivity].
  - intros ->. split; reflexivity.
Qed.

Lemma listing_is_sorted_filter_witness :
  MarkupRoute.GET sampleDb (JS.lit "blueprint-1")
  = MarkupRoute.mkResponse 200 true
      (MarkupRoute.Markups (MarkupRoute.findMany sampleDb (JS.lit "blueprint-1"))).
Proof.
  apply (proj1 (proj2 (proj2 (proj2 (listing_is_sorted_filter sampleDb (JS.lit "blueprint-1")))))).
  discriminate.
Defined.

(** X20. The PUT route overwrites the live markup, last write wins: for a
    non-empty blueprint id whose blueprint exists and a body whose markup
    data is a non-empty string, it answers 200, and reading the blueprint
    afterwards gives that markup data with the time of the call; every other
    blueprint and all named saves are as before.  A second such call
    replaces the data of the first. *)
Theorem put_overwrites_live_markup
    (db : MarkupRoute.Db) (now now2 : Z) (bp : JS.jsstring)
    (fields fields2 : list (JS.jsstring * JS.json)) (m m2 : JS.jsstring) :
  bp <> [] -> MarkupRoute.findUnique db bp <> None ->
  JS.property (JS.lit "markupData") fields = Some (JS.JString m) -> m <> [] ->
  JS.property (JS.lit "markupData") fields2 = Some (JS.JString m2) -> m2 <> [] ->
  let result := MarkupRoute.PUT db now bp (Some (JS.JObject fields)) in
  let result2 := MarkupRoute.PUT (fst result) now2 bp (Some (JS.JObject fields2)) in
  MarkupRoute.status (snd result) = 200
  /\ MarkupRoute.findUnique (fst result) bp = Some (MarkupRoute.mkBlueprint bp m now)
  /\ (forall other, other <> bp ->
        MarkupRoute.findUnique (fst result) other = MarkupRoute.findUnique db other)
  /\ MarkupRoute.blueprintMarkup (fst result) = MarkupRoute.blueprintMarkup db
  /\ MarkupRoute.status (snd result2) = 200
  /\ MarkupRoute.findUnique (fst result2) bp = Some (MarkupRoute.mkBlueprint bp m2 now2).
Proof.
  intros Hbp Hex Hf Hm Hf2 Hm2.
  assert (Hput : forall db0 t f0 m0,
            MarkupRoute.findUnique db0 bp <> None ->
            JS.property (JS.lit "markupData") f0 = Some (JS.JString m0) -> m0 <> [] ->
            MarkupRoute.PUT db0 t bp (Some (JS.JObject f0))
            = (MarkupRoute.mkDb
                 (map (fun b => if JS.jsstring_eqb (MarkupRoute.bpId b) bp
                                then MarkupRoute.mkBlueprint bp m0 t else b)
                      (MarkupRoute.blueprint db0))
                 (MarkupRoute.blueprintMarkup db0) (MarkupRoute.user db0),
               MarkupRoute.apiSuccess
                 (MarkupRoute.UpdatedBlueprint (MarkupRoute.mkBlueprint bp m0 t)))).
  { intros db0 t f0 m0 Hex0 Hp0 Hne0. unfold MarkupRoute.PUT.
    destruct bp as [| c k]; [contradiction |]. cbn [JS.truthy negb].
    unfold MarkupRoute.validateRequest, MarkupRoute.MarkupUpdateSchema.
    pose proof (proj2 (zStringMin1_accepts "markupData" "Markup data is required"
                         (JS.property (JS.lit "markupData") f0) m0) (conj Hp0 Hne0)) as Hz.
    destruct (MarkupRoute.zStringMin1 "markupData" "Markup data is required"
                (JS.property (JS.lit "markupData") f0)) as [i v].
    cbn [snd] in Hz. subst v. unfold MarkupRoute.update.
    destruct (MarkupRoute.findUnique db0 (c :: k)); [reflexivity | contradiction]. }
  assert (Hfind : forall db0 t m0 other,
            MarkupRoute.findUnique
              (MarkupRoute.mkDb
                 (map (fun b => if JS.jsstring_eqb (MarkupRoute.bpId b) bp
                                then MarkupRoute.mkBlueprint bp m0 t else b)
                      (MarkupRoute.blueprint db0))
                 (MarkupRoute.blueprintMarkup db0) (MarkupRoute.user db0)) other
            = if JS.jsstring_eqb bp other
              then match MarkupRoute.findUnique db0 bp with
                   | Some _ => Some (MarkupRoute.mkBlueprint bp m0 t)
                   | None => None
                   end
              else MarkupRoute.findUnique db0 other).
  { intros db0 t m0 other. unfold MarkupRoute.findUnique. cbn [MarkupRoute.blueprint].
    now apply find_map_replace. }
  intros result result2.
  pose proof (Hput db now fields m Hex Hf Hm) as Hr. fold result in Hr.
  assert (Hfirst : MarkupRoute.findUnique (fst result) bp
                   = Some (MarkupRoute.mkBlueprint bp m now)).
  { rewrite Hr. cbn [fst]. rewrite Hfind, jsstring_eqb_refl.
    destruct (MarkupRoute.findUnique db bp); [reflexivity | contradiction]. }
  assert (Hex2 : MarkupRoute.findUnique (fst result) bp <> None)
    by (rewrite Hfirst; discriminate).
  pose proof (Hput (fst result) now2 fields2 m2 Hex2 Hf2 Hm2) as Hr2. fold result2 in Hr2.
  split; [now rewrite Hr |]. split; [exact Hfirst |]. split; [| split; [| split]].
  - intros other Ho. rewrite Hr. cbn [fst]. rewrite Hfind.
    rewrite jsstring_eqb_neq by congruence. reflexivity.
  - now rewrite Hr.
  - now rewrite Hr2.
  - rewrite Hr2. cbn [fst]. rewrite Hfind, jsstring_eqb_refl. now rewrite Hfirst.
Qed.

Lemma put_overwrites_live_markup_witness :
  MarkupRoute.findUnique
    (fst (MarkupRoute.PUT sampleDb 50 (JS.lit "blueprint-1") (Some (updateBody (JS.lit "[1]")))))
    (JS.lit "blueprint-1")
  = Some (MarkupRoute.mkBlueprint (JS.lit "blueprint-1") (JS.lit "[1]") 50).
Proof.
  refine (proj1 (proj2 (put_overwrites_live_markup sampleDb 50 60 (JS.lit "blueprint-1")
                          [ (JS.lit "markupData", JS.JString (JS.lit "[1]")) ]
                          [ (JS.lit "markupData", JS.JString (JS.lit "[2]")) ]
                          (JS.lit "[1]") (JS.lit "[2]") _ _ eq_refl _ eq_refl _)));
    discriminate.
Defined.



(* ================================================================= *)
(** ** Buttons and background *)

(** X22. The undo and the redo button are disabled exactly when their
    handler would change nothing: in any state, undo leaves the state as it
    is if and only if the undo button is disabled, and likewise for redo. *)
Theorem buttons_disabled_iff_noop (s : State) :
  (undoDisabled s = true <-> undo s = s)
  /\ (redoDisabled s = true <-> redo s = s).
Proof.
  unfold undoDisabled, redoDisabled. split; split.
  - intros H. apply undo_at_start. lia.
  - intros H. destruct (Z.leb_spec (historyIndex s) 0) as [Hle | Hgt]; [reflexivity |].
    exfalso. assert (Hi : historyIndex (undo s) = historyIndex s - 1).
    { unfold undo. destruct (Z.gtb_spec (historyIndex s) 0); [| lia].
      now destruct (JS.get (history s) (historyIndex s - 1)). }
    rewrite H in Hi. lia.
  - intros H. apply redo_at_tip. lia.
  - intros H.
    destruct (Z.geb_spec (historyIndex s) (JS.length (history s) - 1)) as [Hge | Hlt];
      [reflexivity |].
    exfalso. assert (Hi : historyIndex (redo s) = historyIndex s + 1).
    { unfold redo. destruct (Z.ltb_spec (historyIndex s) (JS.length (history s) - 1)); [| lia].
      now destruct (JS.get (history s) (historyIndex s + 1)). }
    rewrite H in Hi. lia.
Qed.

Lemma buttons_disabled_iff_noop_witness :
  undo (opened [strokeA]) = opened [strokeA] /\ redoDisabled midHistory = false.
Proof.
  split.
  - exact (proj1 (proj1 (buttons_disabled_iff_noop (opened [strokeA]))) eq_refl).
  - destruct (redoDisabled midHistory) eqn:E; [| reflexivity].
    apply (proj1 (proj2 (buttons_disabled_iff_noop midHistory))) in E.
    apply (f_equal historyIndex) in E. vm_compute in E. discriminate.
Defined.

Section ImagePainting.
Implicit Types (m : Matrix) (stack : list Matrix) (k : list Cmd).

Lemma paintedImages_lines (pts : list Point) k m stack :
  paintedImages (map (fun point => LineTo (x point) (y point)) pts ++ k) m stack
  = paintedImages k m stack.
Proof. induction pts as [| p pts IH]; [reflexivity | exact IH]. Qed.

(** Drawing an element paints no image and leaves matrix and stack alone. *)
Lemma paintedImages_drawElement (e : DrawingElement) k m stack :
  paintedImages (drawElement e ++ k) m stack = paintedImages k m stack.
Proof.
  unfold drawElement. destruct e as [i t pts sx sy ex ey txt col w ts].
  cbn [El.type El.points El.startX El.startY El.endX El.endY El.text El.color El.strokeWidth].
  destruct t.
  - destruct pts as [[| p0 [| p1 ps]] |]; try reflexivity.
    rewrite <- !app_assoc. cbn [app paintedImages]. rewrite paintedImages_lines. reflexivity.
  - destruct sx, sy, ex, ey; reflexivity.
  - destruct sx, sy, ex, ey; reflexivity.
  - destruct txt as [label |], sx, sy; try reflexivity.
    destruct (JS.truthy label); reflexivity.
Qed.

Lemma paintedImages_elements (els : list DrawingElement) k m stack :
  paintedImages (flat_map drawElement els ++ k) m stack = paintedImages k m stack.
Proof.
  induction els as [| e els IH]; [reflexivity |].
  cbn [flat_map]. rewrite <- app_assoc, paintedImages_drawElement. exact IH.
Qed.

End ImagePainting.

(** X23. Zooming scales the markup but not the blueprint image: in every
    reachable state, with canvas and image there, the drawing starts with
    clearing the canvas, saving, scaling by the zoom and translating by the
    pan, and then draws the image from the origin with the canvas size
    divided by the zoom.  It is the only image painted, and under the
    matrix current at that call it covers (numbers taken as exact
    rationals) the bitmap from its origin to its full width and height,
    whatever the zoom. *)
Theorem image_fills_canvas_at_any_zoom (s : State) (env : Env) (cv : CanvasBox) :
  reachable s -> canvas env = Some cv -> image env = true ->
  (exists after,
     drawElements env s
     = [ ClearRect 0 0 (width cv) (height cv); Save;
         Scale (zoom s) (zoom s); Translate (x (pan s)) (y (pan s));
         DrawImage 0 0 (width cv / zoom s) (height cv / zoom s) ]%Q ++ after)
  /\ (exists c0 c1,
        paintedImages (drawElements env s) identity [] = [(c0, c1)]
        /\ samePoint c0 (mkPoint 0 0)
        /\ samePoint c1 (mkPoint (width cv) (height cv)))
  /\ samePoint (apply (transformAfter (viewportTransform s) identity) (mkPoint 0 0))
               (mkPoint 0 0)
  /\ samePoint (apply (transformAfter (viewportTransform s) identity)
                      (mkPoint (width cv / zoom s) (height cv / zoom s))%Q)
               (mkPoint (width cv) (height cv)).
Proof.
  intros Hr Hc Hi.
  assert (Hp : pan s = mkPoint 0 0) by (destruct Hr as [evs ->]; now apply run_pan).
  assert (Hz : zoomInRange s).
  { destruct Hr as [evs ->]. apply run_zoom_range. unfold zoomInRange. simpl. lra. }
  destruct Hz as [Hlo Hhi]. assert (Hnz : ~ (zoom s == 0)%Q) by lra.
  assert (Hd : drawElements env s
               = [ ClearRect 0 0 (width cv) (height cv); Save;
                   Scale (zoom s) (zoom s); Translate (x (pan s)) (y (pan s));
                   DrawImage 0 0 (width cv / zoom s) (height cv / zoom s) ]%Q
                 ++ (flat_map drawElement (elements s) ++ [Restore])).
  { unfold drawElements. rewrite Hc, Hi. reflexivity. }
  split; [eexists; exact Hd |]. split; [| split].
  - rewrite Hd. cbn [app paintedImages]. rewrite paintedImages_elements.
    cbn [paintedImages]. eexists. eexists. split; [reflexivity |].
    unfold samePoint. rewrite Hp. simpl. split; split; try ring; field; exact Hnz.
  - unfold samePoint, viewportTransform. rewrite Hp. simpl. split; ring.
  - unfold samePoint, viewportTransform. rewrite Hp. simpl. split; field; exact Hnz.
Qed.

Lemma image_fills_canvas_at_any_zoom_witness :
  exists c0 c1,
    paintedImages (drawElements sampleEnv (run [ZoomIn; ZoomIn] (opened []))) identity []
    = [(c0, c1)]
    /\ samePoint c0 (mkPoint 0 0)
    /\ samePoint c1 (mkPoint 800 600).
Proof.
  refine (proj1 (proj2 (image_fills_canvas_at_any_zoom (run [ZoomIn; ZoomIn] (opened []))
                          sampleEnv (mkCanvasBox 8 120 800 600) _ eq_refl eq_refl))).
  exists [InitialMarkups (Value (IsArray [])); ZoomIn; ZoomIn]. reflexivity.
Defined.
